(** * Chat client: message stream, typing indicator and conversation list

    A shallow embedding of the client-side synchronisation code of the chat
    application: the [ChatContainer] component (message sequence, optimistic
    send, typing indicator, live subscriptions), the [ChatSidebar] component
    (conversation list, new-conversation dialog), the two chat pages and the
    SQL schema with its helper functions.

    React state is a record; every handler is a function from the state
    before the handler ran to the state after it.  What the managed platform
    answers to a request (rows or an error) is an argument of the handler
    that issued the request. *)

From Stdlib Require Import ZArith NArith Ascii String.
From stdpp Require Import base tactics option list sorting numbers.

Set Default Proof Using "Type".
Local Open Scope Z_scope.

(** ** JavaScript strings *)

(** A JavaScript string is a sequence of UTF-16 code units. *)
Abbreviation jsstring := (list N).

(** A literal of ASCII characters, for readable examples. *)
Definition js (s : string) : jsstring :=
  (λ a, N_of_ascii a) <$> list_ascii_of_string s.
Arguments js : simpl never.

(** [ToBoolean] on a string: only the empty string is falsy. *)
Definition truthy (s : jsstring) : bool :=
  match s with [] => false | _ :: _ => true end.

(** [ToBoolean] on an optional string ([undefined] and [null] are falsy). *)
Definition truthy_opt (o : option jsstring) : bool :=
  match o with Some s => truthy s | None => false end.

(** [a || b] where [a] may be [undefined] and [b] is a string. *)
Definition js_or (a : option jsstring) (b : jsstring) : jsstring :=
  match a with
  | Some s => if truthy s then s else b
  | None => b
  end.

(** ECMAScript WhiteSpace and LineTerminator code points, the characters
    [String.prototype.trim] strips. *)
Definition is_white_space (c : N) : bool :=
  ((c =? 0x09) || (c =? 0x0A) || (c =? 0x0B) || (c =? 0x0C) || (c =? 0x0D)
   || (c =? 0x20) || (c =? 0xA0) || (c =? 0x1680)
   || ((0x2000 <=? c) && (c <=? 0x200A))
   || (c =? 0x2028) || (c =? 0x2029) || (c =? 0x202F) || (c =? 0x205F)
   || (c =? 0x3000) || (c =? 0xFEFF))%N.

Fixpoint trimStart (s : jsstring) : jsstring :=
  match s with
  | [] => []
  | c :: rest => if is_white_space c then trimStart rest else s
  end.

Definition trimEnd (s : jsstring) : jsstring :=
  reverse (trimStart (reverse s)).

Definition trim (s : jsstring) : jsstring := trimEnd (trimStart s).

(** ** Answers of the platform client *)

(** Every query of the platform client resolves to [{ data, error }]. *)
Record Response (A : Type) := mkResponse {
  data : option A;
  error : option jsstring;
}.
Arguments mkResponse {A} _ _.
Arguments data {A} _.
Arguments error {A} _.

(** ** ChatContainer: types *)

(** The [user] summary joined to a message: [{ id, email, full_name? }]. *)
Record MessageUser := mkMessageUser {
  mu_id : jsstring;
  mu_email : jsstring;
  mu_full_name : option jsstring;
}.

(** [type Message]. *)
Record Message := mkMessage {
  msg_id : jsstring;
  msg_conversation_id : jsstring;
  msg_user_id : jsstring;
  msg_content : jsstring;
  msg_created_at : jsstring;
  msg_user : option MessageUser;
}.

(** A message row as [fetchMessages] receives it: the joined relation
    [user:profiles(...)] arrives as an array. *)
Record FetchedMessage := mkFetchedMessage {
  fm_id : jsstring;
  fm_conversation_id : jsstring;
  fm_user_id : jsstring;
  fm_content : jsstring;
  fm_created_at : jsstring;
  fm_user : list MessageUser;
}.

#[global] Instance MessageUser_eq_dec : EqDecision MessageUser.
Proof. solve_decision. Defined.
#[global] Instance Message_eq_dec : EqDecision Message.
Proof. solve_decision. Defined.
#[global] Instance FetchedMessage_eq_dec : EqDecision FetchedMessage.
Proof. solve_decision. Defined.

(** The [useState] cells of the component. *)
Record ChatState := mkChatState {
  messages : list Message;
  newMessage : jsstring;
  loading : bool;
  conversationName : jsstring;
  typingUsers : list jsstring;
}.

(** The state of a freshly mounted component. *)
Definition initialChatState : ChatState :=
  mkChatState [] [] false [] [].

Definition setMessages (f : list Message → list Message) (st : ChatState)
  : ChatState :=
  mkChatState (f (messages st)) (newMessage st) (loading st)
    (conversationName st) (typingUsers st).

Definition setNewMessage (s : jsstring) (st : ChatState) : ChatState :=
  mkChatState (messages st) s (loading st) (conversationName st)
    (typingUsers st).

Definition setLoading (b : bool) (st : ChatState) : ChatState :=
  mkChatState (messages st) (newMessage st) b (conversationName st)
    (typingUsers st).

Definition setConversationName (s : jsstring) (st : ChatState) : ChatState :=
  mkChatState (messages st) (newMessage st) (loading st) s (typingUsers st).

Definition setTypingUsers (f : list jsstring → list jsstring)
  (st : ChatState) : ChatState :=
  mkChatState (messages st) (newMessage st) (loading st)
    (conversationName st) (f (typingUsers st)).

(** ** ChatContainer: message stream *)

(** [fetchConversationDetails]: the name is stored when a row came back. *)
Definition fetchConversationDetails (conversationId : jsstring)
  (resp : Response jsstring) (st : ChatState) : ChatState :=
  if truthy conversationId then
    match data resp with
    | Some name => setConversationName name st
    | None => st
    end
  else st.

(** The per-row transformation of [fetchMessages]: the first joined user,
    or [undefined] when the array is missing or empty. *)
Definition transformMessage (m : FetchedMessage) : Message :=
  mkMessage (fm_id m) (fm_conversation_id m) (fm_user_id m) (fm_content m)
    (fm_created_at m) (head (fm_user m)).

(** [fetchMessages]: on an error only the loading flag changes; otherwise
    the sequence is replaced by the transformed rows ([[]] when [data] is
    null). *)
Definition fetchMessages (conversationId : jsstring)
  (resp : Response (list FetchedMessage)) (st : ChatState) : ChatState :=
  if truthy conversationId then
    let st1 := setLoading true st in
    let st2 :=
      match error resp with
      | Some _ => st1
      | None =>
          let transformedData :=
            match data resp with
            | Some rows => transformMessage <$> rows
            | None => []
            end in
          setMessages (λ _, transformedData) st1
      end in
    setLoading false st2
  else st.

(** [{ ...message, user: data }]. *)
Definition withUser (message : Message) (u : MessageUser) : Message :=
  mkMessage (msg_id message) (msg_conversation_id message)
    (msg_user_id message) (msg_content message) (msg_created_at message)
    (Some u).

(** [fetchMessageWithUser]: the handler of a live INSERT event.  [profile]
    is what the profile lookup returned. *)
Definition fetchMessageWithUser (message : Message)
  (profile : option MessageUser) (st : ChatState) : ChatState :=
  match profile with
  | Some u => setMessages (λ prev, prev ++ [withUser message u]) st
  | None => setMessages (λ prev, prev ++ [message]) st
  end.

(** The object [handleSendMessage] builds: it carries no [user]. *)
Definition newMessageObj (conversationId userId text messageId now : jsstring)
  : Message :=
  mkMessage messageId conversationId userId text now None.

(** [handleSendMessage], up to the point where the insert is awaited.
    [messageId] is the value of [uuidv4()] and [now] the value of
    [new Date().toISOString()].  The result is the new state and the object
    sent to the platform, if any. *)
Definition handleSendMessage_begin (conversationId userId messageId
  now : jsstring) (st : ChatState) : ChatState * option Message :=
  if negb (truthy (trim (newMessage st))) || negb (truthy conversationId)
  then (st, None)
  else
    let obj := newMessageObj conversationId userId (newMessage st)
                 messageId now in
    (setNewMessage [] (setMessages (λ prev, prev ++ [obj]) st), Some obj).

(** [handleSendMessage], after the insert resolved with [err]. *)
Definition handleSendMessage_end (messageId : jsstring)
  (err : option jsstring) (st : ChatState) : ChatState :=
  match err with
  | Some _ =>
      setMessages (λ prev, filter (λ msg, msg_id msg ≠ messageId) prev) st
  | None => st
  end.

(** [handleSendMessage] when nothing else touches the state while the
    insert is in flight.  [persist] is the platform's answer to the
    insert of the given object. *)
Definition handleSendMessage (conversationId userId messageId now : jsstring)
  (persist : Message → option jsstring) (st : ChatState) : ChatState :=
  match handleSendMessage_begin conversationId userId messageId now st with
  | (st1, Some obj) => handleSendMessage_end messageId (persist obj) st1
  | (st1, None) => st1
  end.

(** ** ChatContainer: timers, channels and the typing indicator *)

(** What a subscribed channel listens to.  The listener of a message
    channel keeps the conversation identifier it was created with: it is
    the server-side filter [conversation_id=eq.<id>]. *)
Inductive Listener :=
  | OnMessageInsert (filterConversationId : jsstring)
  | OnTyping.

(** A channel object of the platform client.  Two channel objects are
    told apart by their handle, also when they carry the same topic. *)
Record Channel := mkChannel {
  ch_handle : nat;
  ch_topic : jsstring;
  ch_listener : Listener;
}.

#[global] Instance Listener_eq_dec : EqDecision Listener.
Proof. solve_decision. Defined.
#[global] Instance Channel_eq_dec : EqDecision Channel.
Proof. solve_decision. Defined.

(** The component together with what lives outside React: the pending
    [setTimeout] callbacks (due time in milliseconds and the user the
    callback removes, in the order they were scheduled) and the channels
    the platform client holds. *)
Record Runtime := mkRuntime {
  ui : ChatState;
  timers : list (Z * jsstring);
  channels : list Channel;
  next_handle : nat;
}.

Definition initialRuntime : Runtime := mkRuntime initialChatState [] [] 0.

Definition onUi (f : ChatState → ChatState) (rt : Runtime) : Runtime :=
  mkRuntime (f (ui rt)) (timers rt) (channels rt) (next_handle rt).

(** The update of the typing handler: append unless already included. *)
Definition addTyping (u : jsstring) (prev : list jsstring) : list jsstring :=
  if decide (u ∈ prev) then prev else prev ++ [u].

(** The update of the timeout callback. *)
Definition removeTyping (u : jsstring) (prev : list jsstring)
  : list jsstring :=
  filter (λ id, id ≠ u) prev.

(** The broadcast handler of [subscribeToTyping], run at time [now] for a
    payload carrying [payload_user_id]. *)
Definition onTypingBroadcast (userId : jsstring) (now : Z)
  (payload_user_id : jsstring) (rt : Runtime) : Runtime :=
  if decide (payload_user_id ≠ userId) then
    mkRuntime (setTypingUsers (addTyping payload_user_id) (ui rt))
      (timers rt ++ [(now + 2000, payload_user_id)])
      (channels rt) (next_handle rt)
  else rt.

(** The clock reaches [now]: every callback that is due runs, in the order
    of scheduling (which is the order of due times, all delays being
    equal), and leaves the timer list. *)
Definition advance (now : Z) (rt : Runtime) : Runtime :=
  let due := filter (λ t, t.1 ≤ now) (timers rt) in
  let pending := filter (λ t, ¬ t.1 ≤ now) (timers rt) in
  mkRuntime
    (foldl (λ st t, setTypingUsers (removeTyping t.2) st) (ui rt) due)
    pending (channels rt) (next_handle rt).

(** One step of a trace: the clock reaches the time of the event, then
    the event is handled. *)
Definition typingStep (userId : jsstring) (e : Z * jsstring) (rt : Runtime)
  : Runtime :=
  onTypingBroadcast userId e.1 e.2 (advance e.1 rt).

(** A trace of typing broadcasts, each with its time of receipt. *)
Definition typingTrace (userId : jsstring) (evs : list (Z * jsstring))
  (rt : Runtime) : Runtime :=
  foldl (λ r e, typingStep userId e r) rt evs.

(** Shown, with every removal of [x] due at [D] or later. *)
Definition shownUntil (D : Z) (x : jsstring) (rt : Runtime) : Prop :=
  x ∈ typingUsers (ui rt) ∧ ∀ d, (d, x) ∈ timers rt → D ≤ d.

(** Not shown, or a removal of [x] is pending that is due by [now]. *)
Definition goneBy (now : Z) (x : jsstring) (rt : Runtime) : Prop :=
  x ∉ typingUsers (ui rt) ∨ ∃ d, (d, x) ∈ timers rt ∧ d ≤ now.

(** The active-typer set as rendered at time [now]. *)
Definition typingAt (now : Z) (rt : Runtime) : list jsstring :=
  typingUsers (ui (advance now rt)).

(** [supabase.removeChannel(channel)]. *)
Definition removeChannel (ch : Channel) (rt : Runtime) : Runtime :=
  mkRuntime (ui rt) (timers rt)
    (filter (λ c, ch_handle c ≠ ch_handle ch) (channels rt))
    (next_handle rt).

Definition subscribe (topic : jsstring) (l : Listener) (rt : Runtime)
  : Runtime * Channel :=
  let ch := mkChannel (next_handle rt) topic l in
  (mkRuntime (ui rt) (timers rt) (channels rt ++ [ch]) (S (next_handle rt)),
   ch).

(** [subscribeToMessages] and [subscribeToTyping]: the channel is
    subscribed and a function that removes it is returned. *)
Definition subscribeToMessages (conversationId : jsstring) (rt : Runtime)
  : Runtime * (Runtime → Runtime) :=
  let '(rt1, ch) :=
    subscribe (js "messages:" ++ conversationId)
      (OnMessageInsert conversationId) rt in
  (rt1, removeChannel ch).

Definition subscribeToTyping (conversationId : jsstring) (rt : Runtime)
  : Runtime * (Runtime → Runtime) :=
  let '(rt1, ch) := subscribe (js "typing:" ++ conversationId) OnTyping rt in
  (rt1, removeChannel ch).

(** The body of [useEffect(..., [conversationId])].  The two fetches are
    given their answers; the functions returned by the two subscriptions
    are dropped and the effect itself returns nothing. *)
Definition conversationEffect (conversationId : jsstring)
  (msgs : Response (list FetchedMessage)) (details : Response jsstring)
  (rt : Runtime) : Runtime * option (Runtime → Runtime) :=
  if truthy conversationId then
    let rt1 := onUi (fetchMessages conversationId msgs) rt in
    let rt2 := onUi (fetchConversationDetails conversationId details) rt1 in
    let '(rt3, _) := subscribeToMessages conversationId rt2 in
    let '(rt4, _) := subscribeToTyping conversationId rt3 in
    (rt4, None)
  else (rt, None).

(** A mounted component: its runtime, the dependency value of the last
    run of the effect and the cleanup that run returned. *)
Record Mounted := mkMounted {
  m_runtime : Runtime;
  m_conversationId : jsstring;
  m_cleanup : option (Runtime → Runtime);
}.

Definition mount (conversationId : jsstring)
  (msgs : Response (list FetchedMessage)) (details : Response jsstring)
  : Mounted :=
  let '(rt, c) := conversationEffect conversationId msgs details
                    initialRuntime in
  mkMounted rt conversationId c.

(** A render with a route parameter: when the dependency changed, React
    runs the cleanup of the previous run, if it returned one, and then the
    effect. *)
Definition navigate (conversationId : jsstring)
  (msgs : Response (list FetchedMessage)) (details : Response jsstring)
  (m : Mounted) : Mounted :=
  if decide (m_conversationId m = conversationId) then m
  else
    let rt0 := match m_cleanup m with
               | Some c => c (m_runtime m)
               | None => m_runtime m
               end in
    let '(rt, c) := conversationEffect conversationId msgs details rt0 in
    mkMounted rt conversationId c.

(** The platform delivers an INSERT on [messages]: every subscribed
    message channel whose filter matches the row runs its callback. *)
Definition deliverInsert (row : Message) (profile : option MessageUser)
  (rt : Runtime) : Runtime :=
  foldl (λ r ch,
           match ch_listener ch with
           | OnMessageInsert f =>
               if decide (f = msg_conversation_id row)
               then onUi (fetchMessageWithUser row profile) r
               else r
           | OnTyping => r
           end) rt (channels rt).

(** ** Ordering of timestamps *)


(** What the handler of a live event appends. *)
Definition annotated (message : Message) (profile : option MessageUser)
  : Message :=
  match profile with
  | Some u => withUser message u
  | None => message
  end.

(** A run of completions of [fetchMessageWithUser]: each entry is a
    message whose profile lookup resolved, with the answer, in the order
    in which the lookups resolved. *)
Definition applyInserts (evs : list (Message * option MessageUser))
  (st : ChatState) : ChatState :=
  foldl (λ s e, fetchMessageWithUser e.1 e.2 s) st evs.








(** How often an identifier occurs in a message sequence. *)
Definition occurrences (mid : jsstring) (l : list Message) : nat :=
  length (filter (λ m, msg_id m = mid) l).

(** ** The tables of the schema *)

(** Rows of [profiles], [conversations], [user_conversations] and
    [messages].  A nullable column is an [option]; timestamps are kept in
    the textual form the client receives.  Of [profiles] only the columns
    some modelled operation reads or writes are kept. *)
Record ProfileRow := mkProfileRow {
  p_id : jsstring;
  p_username : option jsstring;
  p_email : option jsstring;
  p_full_name : option jsstring;
  p_avatar_url : option jsstring;
  p_auth_provider : option jsstring;
}.

Record ConversationRow := mkConversationRow {
  c_id : jsstring;
  c_name : jsstring;
  c_description : option jsstring;
  c_is_group : bool;
  c_avatar_url : option jsstring;
  c_created_by : option jsstring;
  c_created_at : jsstring;
  c_updated_at : jsstring;
}.

Record UserConversationRow := mkUserConversationRow {
  uc_id : jsstring;
  uc_user_id : jsstring;
  uc_conversation_id : jsstring;
  uc_is_admin : bool;
  uc_is_muted : bool;
  uc_last_read_message_id : option jsstring;
  uc_created_at : jsstring;
  uc_updated_at : jsstring;
}.

Record MessageRow := mkMessageRow {
  m_id : jsstring;
  m_conversation_id : jsstring;
  m_user_id : jsstring;
  m_content : jsstring;
  m_is_edited : bool;
  m_reply_to_id : option jsstring;
  m_created_at : jsstring;
  m_updated_at : jsstring;
}.

#[global] Instance ProfileRow_eq_dec : EqDecision ProfileRow.
Proof. solve_decision. Defined.
#[global] Instance ConversationRow_eq_dec : EqDecision ConversationRow.
Proof. solve_decision. Defined.
#[global] Instance UserConversationRow_eq_dec : EqDecision UserConversationRow.
Proof. solve_decision. Defined.
#[global] Instance MessageRow_eq_dec : EqDecision MessageRow.
Proof. solve_decision. Defined.

Record Database := mkDatabase {
  profiles : list ProfileRow;
  conversations : list ConversationRow;
  user_conversations : list UserConversationRow;
  messages_table : list MessageRow;
}.

(** What the client sends for [conversations]: [{ id, name, is_group }]. *)
Record ConversationInsert := mkConversationInsert {
  ci_id : jsstring;
  ci_name : jsstring;
  ci_is_group : bool;
}.

(** What the client sends for [user_conversations]:
    [{ user_id, conversation_id }]. *)
Record UserConversationInsert := mkUserConversationInsert {
  uci_user_id : jsstring;
  uci_conversation_id : jsstring;
}.

#[global] Instance ConversationInsert_eq_dec : EqDecision ConversationInsert.
Proof. solve_decision. Defined.
#[global] Instance UserConversationInsert_eq_dec
  : EqDecision UserConversationInsert.
Proof. solve_decision. Defined.

(** The row the table stores for a client insert: the columns the client
    left out take the defaults of [CREATE TABLE] ([now] is the value of
    [now()], [rowid] that of [uuid_generate_v4()]). *)
Definition conversationRowOf (now : jsstring) (ci : ConversationInsert)
  : ConversationRow :=
  mkConversationRow (ci_id ci) (ci_name ci) None (ci_is_group ci) None None
    now now.

Definition userConversationRowOf (now rowid : jsstring)
  (uci : UserConversationInsert) : UserConversationRow :=
  mkUserConversationRow rowid (uci_user_id uci) (uci_conversation_id uci)
    false false None now now.

(** What an insert of the client does to the tables once the platform
    has accepted it: the rows are appended; [rowids] numbers the generated
    identifiers by the position of the row in the table.  Whether the
    platform accepts is decided by the policies and constraints of the
    schema ([conversationInsertAnswer] and [membershipInsertAnswer]
    below). *)
Definition insertConversation (now : jsstring) (ci : ConversationInsert)
  (db : Database) : Database :=
  mkDatabase (profiles db) (conversations db ++ [conversationRowOf now ci])
    (user_conversations db) (messages_table db).

Definition insertUserConversations (now : jsstring) (rowids : nat → jsstring)
  (rows : list UserConversationInsert) (db : Database) : Database :=
  mkDatabase (profiles db) (conversations db)
    (user_conversations db ++
       imap (λ i uci,
               userConversationRowOf now
                 (rowids (length (user_conversations db) + i)%nat) uci) rows)
    (messages_table db).

(** ** ChatSidebar: types and state *)

Record LastMessage := mkLastMessage {
  lm_content : jsstring;
  lm_created_at : jsstring;
  lm_user_id : jsstring;
}.

(** [type Conversation]. *)
Record Conversation := mkConversation {
  conv_id : jsstring;
  conv_name : jsstring;
  conv_created_at : jsstring;
  conv_is_group : bool;
  conv_last_message : list LastMessage;
}.

(** [type User]. *)
Record User := mkUser {
  u_id : jsstring;
  u_email : jsstring;
  u_full_name : option jsstring;
  u_username : option jsstring;
  u_avatar_url : option jsstring;
}.

#[global] Instance LastMessage_eq_dec : EqDecision LastMessage.
Proof. solve_decision. Defined.
#[global] Instance Conversation_eq_dec : EqDecision Conversation.
Proof. solve_decision. Defined.
#[global] Instance User_eq_dec : EqDecision User.
Proof. solve_decision. Defined.

Record SidebarState := mkSidebarState {
  activeConversations : list Conversation;
  showNewChatModal : bool;
  searchTerm : jsstring;
  searchUserTerm : jsstring;
  searchResults : list User;
  selectedUsers : list User;
  isGroup : bool;
  groupName : jsstring;
  isLoading : bool;
  sb_error : jsstring;
}.

(** The state right after mounting with the server-rendered list. *)
Definition initialSidebarState (conversations : list Conversation)
  : SidebarState :=
  mkSidebarState conversations false [] [] [] [] false [] false [].

Definition setActiveConversations (l : list Conversation)
  (st : SidebarState) : SidebarState :=
  mkSidebarState l (showNewChatModal st) (searchTerm st) (searchUserTerm st)
    (searchResults st) (selectedUsers st) (isGroup st) (groupName st)
    (isLoading st) (sb_error st).

Definition setSearchResults (l : list User) (st : SidebarState)
  : SidebarState :=
  mkSidebarState (activeConversations st) (showNewChatModal st)
    (searchTerm st) (searchUserTerm st) l (selectedUsers st) (isGroup st)
    (groupName st) (isLoading st) (sb_error st).

Definition setSelectedUsers (l : list User) (st : SidebarState)
  : SidebarState :=
  mkSidebarState (activeConversations st) (showNewChatModal st)
    (searchTerm st) (searchUserTerm st) (searchResults st) l (isGroup st)
    (groupName st) (isLoading st) (sb_error st).

Definition setSearchUserTerm (s : jsstring) (st : SidebarState)
  : SidebarState :=
  mkSidebarState (activeConversations st) (showNewChatModal st)
    (searchTerm st) s (searchResults st) (selectedUsers st) (isGroup st)
    (groupName st) (isLoading st) (sb_error st).

Definition setIsLoading (b : bool) (st : SidebarState) : SidebarState :=
  mkSidebarState (activeConversations st) (showNewChatModal st)
    (searchTerm st) (searchUserTerm st) (searchResults st) (selectedUsers st)
    (isGroup st) (groupName st) b (sb_error st).

Definition setError (s : jsstring) (st : SidebarState) : SidebarState :=
  mkSidebarState (activeConversations st) (showNewChatModal st)
    (searchTerm st) (searchUserTerm st) (searchResults st) (selectedUsers st)
    (isGroup st) (groupName st) (isLoading st) s.

Definition setShowNewChatModal (b : bool) (st : SidebarState)
  : SidebarState :=
  mkSidebarState (activeConversations st) b (searchTerm st)
    (searchUserTerm st) (searchResults st) (selectedUsers st) (isGroup st)
    (groupName st) (isLoading st) (sb_error st).

Definition setIsGroup (b : bool) (st : SidebarState) : SidebarState :=
  mkSidebarState (activeConversations st) (showNewChatModal st)
    (searchTerm st) (searchUserTerm st) (searchResults st) (selectedUsers st)
    b (groupName st) (isLoading st) (sb_error st).

Definition setGroupName (s : jsstring) (st : SidebarState) : SidebarState :=
  mkSidebarState (activeConversations st) (showNewChatModal st)
    (searchTerm st) (searchUserTerm st) (searchResults st) (selectedUsers st)
    (isGroup st) s (isLoading st) (sb_error st).

(** ** ChatSidebar: the conversation list *)

(** [user_conversations!inner(user_id)] with
    [.eq("user_conversations.user_id", userId)]: the conversation has a
    membership row of the user. *)
Definition isMember (db : Database) (userId : jsstring)
  (c : ConversationRow) : Prop :=
  Exists (λ uc, uc_conversation_id uc = c_id c ∧ uc_user_id uc = userId)
    (user_conversations db).

#[global] Instance isMember_dec db userId c : Decision (isMember db userId c).
Proof. unfold isMember. apply _. Defined.

(** [.order("created_at", { ascending: false })]: the later instant
    first.  Rows of equal instant keep some order; here the one of the
    merge. *)
Definition newerFirst (instant : jsstring → Z) (a b : ConversationRow)
  : Prop :=
  instant (c_created_at b) ≤ instant (c_created_at a).

#[global] Instance newerFirst_dec instant a b
  : Decision (newerFirst instant a b).
Proof. unfold newerFirst. apply _. Defined.

(** [last_message:messages(content, created_at, user_id)] with
    [.limit(1, { foreignTable: "messages" })]: at most one message of the
    conversation.  No order is asked for on the embedded table; the first
    row in table order stands for the one the platform picks. *)
Definition lastMessageOf (m : MessageRow) : LastMessage :=
  mkLastMessage (m_content m) (m_created_at m) (m_user_id m).

Definition selectConversation (db : Database) (c : ConversationRow)
  : Conversation :=
  mkConversation (c_id c) (c_name c) (c_created_at c) (c_is_group c)
    (take 1 (lastMessageOf <$>
               filter (λ m, m_conversation_id m = c_id c)
                 (messages_table db))).

(** The query of [fetchConversations] (and of the two chat pages), run on
    the tables. *)
Definition conversationsQuery (instant : jsstring → Z) (db : Database)
  (userId : jsstring) : list Conversation :=
  selectConversation db <$>
    merge_sort (newerFirst instant)
      (filter (isMember db userId) (conversations db)).

(** [fetchConversations]: the list is replaced when [data] is set. *)
Definition fetchConversations (resp : Response (list Conversation))
  (st : SidebarState) : SidebarState :=
  match data resp with
  | Some d => setActiveConversations d st
  | None => st
  end.

(** The callback of the [conversation-changes] subscription: any change on
    [conversations] refetches. *)
Definition onConversationChange (resp : Response (list Conversation))
  (st : SidebarState) : SidebarState :=
  fetchConversations resp st.

(** ** ChatSidebar: the new-conversation dialog *)

(** [searchUsers] up to the awaited query: a blank term returns at once
    ([false]: no query is sent). *)
Definition searchUsers_begin (st : SidebarState) : SidebarState * bool :=
  if negb (truthy (trim (searchUserTerm st))) then (st, false)
  else (setError [] (setIsLoading true st), true).

(** [searchUsers] after the query resolved.  [selectedAtCall] is the
    [selectedUsers] of the render the running function closed over.  A
    missing [data] without an error makes [data.filter] throw, which the
    [catch] turns into the same message as an error. *)
Definition searchUsers_end (selectedAtCall : list User)
  (resp : Response (list User)) (st : SidebarState) : SidebarState :=
  let st2 :=
    match error resp, data resp with
    | None, Some rows =>
        setSearchResults
          (filter (λ user,
                     ¬ Exists (λ selected, u_id selected = u_id user)
                         selectedAtCall)
             rows) st
    | _, _ => setError (js "Failed to search users") st
    end in
  setIsLoading false st2.

(** [searchUsers] when nothing else touches the state while the query is
    in flight. *)
Definition searchUsers (resp : Response (list User)) (st : SidebarState)
  : SidebarState :=
  match searchUsers_begin st with
  | (st1, true) => searchUsers_end (selectedUsers st) resp st1
  | (st1, false) => st1
  end.

(** The debounced effect on [searchUserTerm]: search when the term is not
    empty, else clear the results. *)
Definition searchEffect (resp : Response (list User)) (st : SidebarState)
  : SidebarState :=
  if truthy (searchUserTerm st) then searchUsers resp st
  else setSearchResults [] st.

Definition addUser (user : User) (st : SidebarState) : SidebarState :=
  setSearchUserTerm []
    (setSearchResults
       (filter (λ result, u_id result ≠ u_id user) (searchResults st))
       (setSelectedUsers (selectedUsers st ++ [user]) st)).

Definition removeUser (userId : jsstring) (st : SidebarState)
  : SidebarState :=
  setSelectedUsers (filter (λ user, u_id user ≠ userId) (selectedUsers st))
    st.

(** [a || b] on two optional strings. *)
Definition or_opt (a b : option jsstring) : option jsstring :=
  if truthy_opt a then a else b.

(** [user.full_name || user.username || user.email]. *)
Definition displayName (user : User) : jsstring :=
  js_or (or_opt (u_full_name user) (u_username user)) (u_email user).

(** The rows [createConversation] sends to [user_conversations]. *)
Definition userConversationsOf (userId conversationId : jsstring)
  (selected : list User) : list UserConversationInsert :=
  mkUserConversationInsert userId conversationId ::
    ((λ user, mkUserConversationInsert (u_id user) conversationId)
       <$> selected).

(** The outcome of [createConversation]: the dialog state, the tables and
    the route pushed, if any. *)
Record CreateOutcome := mkCreateOutcome {
  co_state : SidebarState;
  co_db : Database;
  co_pushed : option jsstring;
}.

(** [createConversation].  [conversationId] is the value of [uuidv4()];
    [conversationError] and [userConversationError] are the platform's
    answers to the two inserts, [now] and [rowids] what it generates for
    the rows it accepts. *)
Definition createConversation (userId conversationId now : jsstring)
  (rowids : nat → jsstring)
  (conversationError userConversationError : option jsstring)
  (st : SidebarState) (db : Database) : CreateOutcome :=
  match selectedUsers st with
  | [] =>
      mkCreateOutcome (setError (js "Please select at least one user") st)
        db None
  | first :: _ =>
      if isGroup st && negb (truthy (trim (groupName st))) then
        mkCreateOutcome (setError (js "Please enter a group name") st) db None
      else
        let st1 := setError [] (setIsLoading true st) in
        let failed :=
          setIsLoading false
            (setError (js "Failed to create conversation") st1) in
        let conversationName :=
          if isGroup st then groupName st else displayName first in
        match conversationError with
        | Some _ => mkCreateOutcome failed db None
        | None =>
            let db1 :=
              insertConversation now
                (mkConversationInsert conversationId conversationName
                   (isGroup st)) db in
            match userConversationError with
            | Some _ => mkCreateOutcome failed db1 None
            | None =>
                let db2 :=
                  insertUserConversations now rowids
                    (userConversationsOf userId conversationId
                       (selectedUsers st)) db1 in
                mkCreateOutcome
                  (setIsLoading false
                     (setSearchUserTerm []
                        (setGroupName []
                           (setIsGroup false
                              (setSelectedUsers []
                                 (setShowNewChatModal false st1))))))
                  db2 (Some (js "/chat/" ++ conversationId))
            end
        end
  end.

(** What the header of the chat shows: [conversationName || "Chat"]. *)
Definition headerTitle (st : ChatState) : jsstring :=
  if truthy (conversationName st) then conversationName st else js "Chat".

(** The single row [fetchConversationDetails] asks for as [viewer]:
    [.select("name").eq("id", conversationId).single()], over the rows the
    select policy of [conversations] lets the viewer see (those they have
    a membership row for). *)
Definition conversationDetailsQuery (db : Database)
  (viewer conversationId : jsstring) : Response jsstring :=
  match filter (λ c, c_id c = conversationId ∧ isMember db viewer c)
          (conversations db) with
  | [c] => mkResponse (Some (c_name c)) None
  | _ => mkResponse None (Some (js "PGRST116"))
  end.

(** The rows an accepted [user_conversations] insert adds. *)
Definition addedUserConversations (now : jsstring) (rowids : nat → jsstring)
  (rows : list UserConversationInsert) (db : Database)
  : list UserConversationRow :=
  imap (λ i uci,
          userConversationRowOf now
            (rowids (length (user_conversations db) + i)%nat) uci) rows.

(** The name a direct conversation gets, case by case. *)
Definition displayNameCases (user : User) : jsstring :=
  match u_full_name user with
  | Some (c :: s) => c :: s
  | _ =>
      match u_username user with
      | Some (c :: s) => c :: s
      | _ => u_email user
      end
  end.

(** The empty database. *)
Definition emptyDatabase : Database := mkDatabase [] [] [] [].

(** ** The SQL functions of the schema *)

(** A nullable reference to [profiles(id)] holds when it is null or names
    a profile. *)
Definition refersToProfile (db : Database) (ref : option jsstring) : bool :=
  match ref with
  | Some u => bool_decide (u ∈ p_id <$> profiles db)
  | None => true
  end.

(** The user and conversation of a membership row: the pair the unique
    constraint ranges over. *)
Definition memberPair (r : UserConversationRow) : jsstring * jsstring :=
  (uc_user_id r, uc_conversation_id r).

(** An [INSERT] run inside the database checks the constraints of
    [CREATE TABLE]; a violated constraint raises, which aborts the calling
    function ([None]).  For [conversations]: the primary key and the
    reference of [created_by] to [profiles]. *)
Definition sqlInsertConversation (row : ConversationRow) (db : Database)
  : option Database :=
  if decide (c_id row ∈ c_id <$> conversations db) then None
  else if refersToProfile db (c_created_by row)
  then Some (mkDatabase (profiles db) (conversations db ++ [row])
               (user_conversations db) (messages_table db))
  else None.

(** For [user_conversations]: the primary key, the references to
    [profiles] and [conversations], and [UNIQUE(user_id, conversation_id)]. *)
Definition sqlInsertUserConversation (row : UserConversationRow)
  (db : Database) : option Database :=
  if decide (uc_id row ∈ uc_id <$> user_conversations db) then None
  else if decide (uc_user_id row ∈ p_id <$> profiles db
                  ∧ uc_conversation_id row ∈ c_id <$> conversations db
                  ∧ memberPair row ∉ memberPair <$> user_conversations db)
  then Some (mkDatabase (profiles db) (conversations db)
               (user_conversations db ++ [row]) (messages_table db))
  else None.

(** [INSERT INTO user_conversations (user_id, conversation_id, is_admin)]
    with the other columns at their defaults.  The generated identifier of
    the row is [rowids] at the size of the table. *)
Definition sqlAddMember (now : jsstring) (rowids : nat → jsstring)
  (user_id conversation_id : jsstring) (is_admin : bool) (db : Database)
  : option Database :=
  sqlInsertUserConversation
    (mkUserConversationRow (rowids (length (user_conversations db))) user_id
       conversation_id is_admin false None now now) db.

(** The [FOREACH] loop of [create_group_conversation]. *)
Fixpoint addGroupMembers (now : jsstring) (rowids : nat → jsstring)
  (creator_id new_conversation_id : jsstring) (member_ids : list jsstring)
  (db : Database) : option Database :=
  match member_ids with
  | [] => Some db
  | member_id :: rest =>
      if decide (member_id ≠ creator_id) then
        db1 ← sqlAddMember now rowids member_id new_conversation_id false db;
        addGroupMembers now rowids creator_id new_conversation_id rest db1
      else addGroupMembers now rowids creator_id new_conversation_id rest db
  end.

(** [create_group_conversation], called with arguments that are not
    null.  [new_conversation_id] is the identifier the insert generates
    and returns. *)
Definition create_group_conversation (now : jsstring)
  (rowids : nat → jsstring) (new_conversation_id : jsstring)
  (creator_id group_name : jsstring) (description : option jsstring)
  (member_ids : list jsstring) (db : Database)
  : option (Database * jsstring) :=
  db1 ← sqlInsertConversation
          (mkConversationRow new_conversation_id group_name description true
             None (Some creator_id) now now) db;
  db2 ← sqlAddMember now rowids creator_id new_conversation_id true db1;
  db3 ← addGroupMembers now rowids creator_id new_conversation_id member_ids
          db2;
  Some (db3, new_conversation_id).

(** The lookup of [create_direct_conversation]: a conversation that is not
    a group and has a membership row of each of the two users. *)
Definition directBetween (db : Database) (user1_id user2_id : jsstring)
  (c : ConversationRow) : Prop :=
  c_is_group c = false ∧ isMember db user1_id c ∧ isMember db user2_id c.

#[global] Instance directBetween_dec db u1 u2 c
  : Decision (directBetween db u1 u2 c).
Proof. unfold directBetween. apply _. Defined.

(** The rows the lookup matches. *)
Definition directCandidates (db : Database) (user1_id user2_id : jsstring)
  : list ConversationRow :=
  filter (directBetween db user1_id user2_id) (conversations db).

(** [LIMIT 1] without an order returns any one of the matching rows.
    [pick] is the choice the database makes among them. *)
Definition findDirectWith (pick : list ConversationRow → option ConversationRow)
  (db : Database) (user1_id user2_id : jsstring) : option jsstring :=
  c_id <$> pick (directCandidates db user1_id user2_id).

(** A choice is one of the rows, and none only when there is no row. *)
Definition validPick (pick : list ConversationRow → option ConversationRow)
  : Prop :=
  ∀ l, match pick l with
       | Some c => c ∈ l
       | None => l = []
       end.

(** The lookup when the database returns the first match in table
    order. *)
Definition findDirect (db : Database) (user1_id user2_id : jsstring)
  : option jsstring :=
  findDirectWith head db user1_id user2_id.

(** [SELECT username INTO ... FROM profiles WHERE id = ...]: null when no
    row matches or the column is null. *)
Definition usernameOf (db : Database) (user_id : jsstring)
  : option jsstring :=
  head (filter (λ p, p_id p = user_id) (profiles db)) ≫= p_username.

(** [user1_name || ' & ' || user2_name]: null when either side is. *)
Definition directName (n1 n2 : option jsstring) : option jsstring :=
  a ← n1; b ← n2; Some (a ++ js " & " ++ b).

(** [create_direct_conversation], called with arguments that are not
    null.  A null name violates [NOT NULL] and aborts. *)
Definition create_direct_conversation_with
  (pick : list ConversationRow → option ConversationRow) (now : jsstring)
  (rowids : nat → jsstring) (generated_id : jsstring)
  (user1_id user2_id : jsstring) (db : Database)
  : option (Database * jsstring) :=
  match findDirectWith pick db user1_id user2_id with
  | Some existing => Some (db, existing)
  | None =>
      conversation_name ←
        directName (usernameOf db user1_id) (usernameOf db user2_id);
      db1 ← sqlInsertConversation
              (mkConversationRow generated_id conversation_name None false
                 None (Some user1_id) now now) db;
      db2 ← sqlAddMember now rowids user1_id generated_id false db1;
      db3 ← sqlAddMember now rowids user2_id generated_id false db2;
      Some (db3, generated_id)
  end.

(** The function when the lookup returns the first match in table
    order. *)
Definition create_direct_conversation (now : jsstring)
  (rowids : nat → jsstring) (generated_id : jsstring)
  (user1_id user2_id : jsstring) (db : Database)
  : option (Database * jsstring) :=
  create_direct_conversation_with head now rowids generated_id user1_id
    user2_id db.

(** ** The answers of the schema to the inserts of the dialog *)

(** The insert policy of [user_conversations] is
    [WITH CHECK (user_id = auth.uid())], with row-level security enabled:
    an insert is accepted as a whole only when every row is the caller's
    own.  Besides, every row must refer to a profile and a conversation
    and the pairs must stay unique. *)
Definition membershipInsertAllowed (authUid : jsstring) (db : Database)
  (rows : list UserConversationInsert) : Prop :=
  Forall (λ r, uci_user_id r = authUid) rows
  ∧ Forall (λ r, uci_user_id r ∈ p_id <$> profiles db
                 ∧ uci_conversation_id r ∈ c_id <$> conversations db) rows
  ∧ NoDup ((λ r, (uci_user_id r, uci_conversation_id r)) <$> rows)
  ∧ Forall (λ r, (uci_user_id r, uci_conversation_id r)
                   ∉ memberPair <$> user_conversations db) rows.

#[global] Instance membershipInsertAllowed_dec authUid db rows
  : Decision (membershipInsertAllowed authUid db rows).
Proof. unfold membershipInsertAllowed. apply _. Defined.

Definition membershipInsertAnswer (authUid : jsstring) (db : Database)
  (rows : list UserConversationInsert) : option jsstring :=
  if decide (membershipInsertAllowed authUid db rows) then None
  else Some (js "42501").

(** The insert policy of [conversations] is [WITH CHECK (true)]; the
    primary key rejects an identifier the table holds already. *)
Definition conversationInsertAnswer (db : Database) (ci : ConversationInsert)
  : option jsstring :=
  if decide (ci_id ci ∈ c_id <$> conversations db) then Some (js "23505")
  else None.

(** [createConversation] run by the signed-in user [userId] against the
    schema: the two answers are the ones the schema gives. *)
Definition createConversationOnSchema (userId conversationId now : jsstring)
  (rowids : nat → jsstring) (st : SidebarState) (db : Database)
  : CreateOutcome :=
  let name :=
    match selectedUsers st with
    | first :: _ => if isGroup st then groupName st else displayName first
    | [] => groupName st
    end in
  let ci := mkConversationInsert conversationId name (isGroup st) in
  createConversation userId conversationId now rowids
    (conversationInsertAnswer db ci)
    (membershipInsertAnswer userId (insertConversation now ci db)
       (userConversationsOf userId conversationId (selectedUsers st)))
    st db.

(** ** The chat pages *)

(** What a page does with a request: redirect, or render the sidebar and
    the chat for a user.  The queries of a page are answered from the
    tables. *)
Inductive PageResult :=
  | Redirect (path : jsstring)
  | Render (userId : jsstring) (conversations : list Conversation).

(** [.single()]: the row when exactly one matches, else no data. *)
Definition single {A} (rows : list A) : option A :=
  match rows with
  | [row] => Some row
  | _ => None
  end.

(** The page [/chat]: without a session the visitor is sent to [/]. *)
Definition chatPage (instant : jsstring → Z) (session : option jsstring)
  (db : Database) : PageResult :=
  match session with
  | None => Redirect (js "/")
  | Some uid => Render uid (conversationsQuery instant db uid)
  end.

(** The page [/chat/[id]]: without a session the visitor is sent to [/],
    without a membership row for [id] to [/chat]. *)
Definition chatConversationPage (instant : jsstring → Z)
  (session : option jsstring) (db : Database) (id : jsstring)
  : PageResult :=
  match session with
  | None => Redirect (js "/")
  | Some uid =>
      match single (filter (λ uc, uc_user_id uc = uid
                                  ∧ uc_conversation_id uc = id)
                      (user_conversations db)) with
      | None => Redirect (js "/chat")
      | Some _ => Render uid (conversationsQuery instant db uid)
      end
  end.

(** ** Predicates and runs used in the statements *)

(** A text made of white space only. *)
Definition blank (s : jsstring) : Prop :=
  Forall (λ c, is_white_space c = true) s.

(** A run of route changes, each with the answers of its two fetches. *)
Definition navigations
  (targets : list (jsstring * Response (list FetchedMessage)
                   * Response jsstring))
  (m : Mounted) : Mounted :=
  foldl (λ r t, navigate t.1.1 t.1.2 t.2 r) m targets.

(** Every user shown has a removal pending that is due by [bound]. *)
Definition covered (bound : Z) (rt : Runtime) : Prop :=
  ∀ x, x ∈ typingUsers (ui rt) → ∃ d, (d, x) ∈ timers rt ∧ d ≤ bound.

(** The set lists nobody twice and never the local user. *)
Definition typersWellFormed (userId : jsstring) (rt : Runtime) : Prop :=
  NoDup (typingUsers (ui rt)) ∧ userId ∉ typingUsers (ui rt).

(** ** The dialog as the user drives it *)

(** The user types [term] into the search box and the debounced effect
    runs with the platform's answer before anything else happens: action
    [TypeTerm] below.  A click on the [i]-th entry of the rendered search
    results calls [addUser] with its user. *)
Definition clickResult (i : nat) (st : SidebarState) : SidebarState :=
  match searchResults st !! i with
  | Some user => addUser user st
  | None => st
  end.

(** A click on the remove button of the [i]-th selected user. *)
Definition clickRemove (i : nat) (st : SidebarState) : SidebarState :=
  match selectedUsers st !! i with
  | Some user => removeUser (u_id user) st
  | None => st
  end.

Inductive DialogAction :=
  | TypeTerm (term : jsstring) (resp : Response (list User))
  | ClickResult (i : nat)
  | ClickRemove (i : nat).

Definition dialogStep (st : SidebarState) (a : DialogAction)
  : SidebarState :=
  match a with
  | TypeTerm term resp => searchEffect resp (setSearchUserTerm term st)
  | ClickResult i => clickResult i st
  | ClickRemove i => clickRemove i st
  end.

(** No listed search result is already selected, and no user is selected
    twice. *)
Definition selectionWellFormed (st : SidebarState) : Prop :=
  NoDup (u_id <$> selectedUsers st)
  ∧ ∀ r, r ∈ searchResults st → u_id r ∉ u_id <$> selectedUsers st.

(** No membership row refers to a conversation the table lacks. *)
Definition membershipsRefer (db : Database) : Prop :=
  ∀ uc, uc ∈ user_conversations db →
        uc_conversation_id uc ∈ c_id <$> conversations db.

(** [UNIQUE(user_id, conversation_id)] holds in the table. *)
Definition membershipsUnique (db : Database) : Prop :=
  NoDup (memberPair <$> user_conversations db).

(** ** Sample data for closed statements *)

Definition alice : jsstring := js "alice".

Definition bob : User :=
  mkUser (js "bob") (js "bob@example.org") (Some (js "Bob B.")) (Some (js "bob"))
    None.

(** A user who cleared the full name on the profile page. *)
Definition bobNoFullName : User :=
  mkUser (js "bob") (js "bob@example.org") (Some []) (Some (js "bob")) None.

Definition sampleRowids (n : nat) : jsstring := js "row" ++ [N.of_nat n].

(** The dialog with one selected user, direct message chosen. *)
Definition directDialog (user : User) : SidebarState :=
  mkSidebarState [] true [] [] [] [user] false [] false [].

(** The dialog with one selected user, group chat chosen and named. *)
Definition groupDialog (user : User) : SidebarState :=
  mkSidebarState [] true [] [] [] [user] true (js "team") false [].

(** A successful answer carrying [rows]. *)
Definition ok {A} (rows : A) : Response A := mkResponse (Some rows) None.

Definition fetched (mid conversationId : string) : FetchedMessage :=
  mkFetchedMessage (js mid) (js conversationId) (js "bob") (js "text")
    (js "t1") [].

(** Tables holding the profiles of three users and nothing else. *)
Definition profileOf (name : string) : ProfileRow :=
  mkProfileRow (js name) (Some (js name)) None None None None.

Definition threeUsers : Database :=
  mkDatabase [profileOf "alice"; profileOf "bob"; profileOf "eve"] [] [] [].

(** Tables with two conversations of [alice], one of them also holding
    [bob], and two messages in the first. *)
Definition sampleChat : Database :=
  mkDatabase
    [profileOf "alice"; profileOf "bob"]
    [mkConversationRow (js "c1") (js "Bob") None false None None (js "t")
       (js "t");
     mkConversationRow (js "c2") (js "team") None true None None (js "tt")
       (js "tt")]
    [mkUserConversationRow (js "r1") alice (js "c1") false false None
       (js "t") (js "t");
     mkUserConversationRow (js "r2") (js "bob") (js "c1") false false None
       (js "t") (js "t");
     mkUserConversationRow (js "r3") alice (js "c2") false false None
       (js "tt") (js "tt")]
    [mkMessageRow (js "m1") (js "c1") alice (js "hi") false None (js "t")
       (js "t");
     mkMessageRow (js "m2") (js "c1") (js "bob") (js "yo") false None
       (js "tt") (js "tt")].

(** Timestamps of the samples are ordered by their length. *)
Definition sampleInstant (s : jsstring) : Z := Z.of_nat (length s).

(** * Properties *)

(** ** Message stream *)

Section MessageStream.

Implicit Types (st : ChatState) (m : Message) (l : list Message).

Lemma annotated_id m p : msg_id (annotated m p) = msg_id m.
Proof. by destruct p. Qed.

Lemma fetchMessageWithUser_messages m p st :
  messages (fetchMessageWithUser m p st) = messages st ++ [annotated m p].
Proof. by destruct p. Qed.


Lemma applyInserts_messages evs st :
  messages (applyInserts evs st)
  = messages st ++ ((λ e, annotated e.1 e.2) <$> evs).
Proof.
  revert st. induction evs as [|e evs IH]; intros st; simpl.
  - by rewrite app_nil_r.
  - unfold applyInserts in *. simpl. rewrite IH.
    rewrite fetchMessageWithUser_messages. by rewrite <- app_assoc.
Qed.

Lemma occurrences_app mid l1 l2 :
  occurrences mid (l1 ++ l2) = (occurrences mid l1 + occurrences mid l2)%nat.
Proof. unfold occurrences. by rewrite list.filter_app, length_app. Qed.

(** C1 (as the code behaves): a live insert event is appended at the end
    of the sequence whether or not its identifier already occurs, so an
    identifier that occurred [n] times occurs [n + 1] times afterwards, and
    the sequence before the event is a prefix of the one after it. *)
Theorem remote_insert_always_appends m p st :
  messages (fetchMessageWithUser m p st) = messages st ++ [annotated m p]
  ∧ msg_id (annotated m p) = msg_id m
  ∧ occurrences (msg_id m) (messages (fetchMessageWithUser m p st))
    = S (occurrences (msg_id m) (messages st)).
Proof.
  rewrite fetchMessageWithUser_messages, annotated_id.
  split_and!; [done..|].
  rewrite occurrences_app. unfold occurrences at 2. simpl.
  rewrite filter_cons, annotated_id. rewrite decide_True by done.
  simpl. lia.
Qed.

(** C1 (as stated) fails: after the optimistic apply of a send, the echo
    of the same identifier is appended as a second copy. *)
Lemma remote_insert_echo_duplicates :
  let sent :=
    (handleSendMessage_begin (js "c1") (js "alice") (js "m1")
       (js "2024-01-01T00:00:00.000Z")
       (setNewMessage (js "hi") initialChatState)).1 in
  let echo :=
    mkMessage (js "m1") (js "c1") (js "alice") (js "hi")
      (js "2024-01-01T00:00:00+00:00") None in
  js "m1" ∈ msg_id <$> messages sent
  ∧ messages (fetchMessageWithUser echo None sent) ≠ messages sent
  ∧ occurrences (js "m1") (messages (fetchMessageWithUser echo None sent))
    = 2%nat.
Proof. vm_compute. split_and!; [|discriminate|reflexivity]. by left. Qed.

Lemma filter_fresh_id mid l :
  mid ∉ msg_id <$> l → filter (λ msg, msg_id msg ≠ mid) l = l.
Proof.
  induction l as [|m l IH]; simpl; [done|].
  rewrite not_elem_of_cons. intros [Hne Hl].
  rewrite filter_cons_True by congruence. by rewrite IH.
Qed.

(** C2: when the insert of a send fails, the sequence after the rollback
    is the sequence before the send: the optimistic record is removed and
    nothing else is removed or reordered.  The identifier is the fresh
    value of [uuidv4()]: it does not occur in the sequence. *)
Theorem sendMessage_rollback_exact conversationId userId messageId now
  persist st :
  newMessage st ≠ [] →
  messageId ∉ msg_id <$> messages st →
  (∀ obj, is_Some (persist obj)) →
  messages (handleSendMessage conversationId userId messageId now persist st)
  = messages st.
Proof.
  intros _ Hfresh Hfail. unfold handleSendMessage, handleSendMessage_begin.
  destruct (negb (truthy (trim (newMessage st)))
            || negb (truthy conversationId)); [done|].
  destruct (Hfail (newMessageObj conversationId userId (newMessage st)
                     messageId now)) as [e ->].
  simpl. rewrite list.filter_app, filter_fresh_id by done.
  rewrite filter_cons_False, filter_nil, app_nil_r; [done|].
  simpl. by intros H.
Qed.

Lemma sendMessage_rollback_exact_witness :
  messages
    (handleSendMessage (js "c1") (js "alice") (js "m2") (js "t2")
       (λ _, Some (js "PersistError"))
       (mkChatState
          [mkMessage (js "m1") (js "c1") (js "bob") (js "yo") (js "t1") None]
          (js "hi") false (js "Bob") []))
  = [mkMessage (js "m1") (js "c1") (js "bob") (js "yo") (js "t1") None].
Proof.
  apply (sendMessage_rollback_exact (js "c1") (js "alice") (js "m2")
           (js "t2") (λ _, Some (js "PersistError"))
           (mkChatState
              [mkMessage (js "m1") (js "c1") (js "bob") (js "yo") (js "t1")
                 None]
              (js "hi") false (js "Bob") [])).
  - vm_compute. discriminate.
  - vm_compute. intros H. apply list_elem_of_In in H. simpl in H.
    destruct H as [H|[]]. discriminate H.
  - intros obj. simpl. eauto.
Defined.

(** C3 (as the code behaves): a failed fetch leaves the message sequence
    exactly as it was before the call and clears the loading flag; no row
    of the answer is applied.  The sequence is therefore empty after a
    failed fetch when it was empty before it, as on a fresh mount. *)
Theorem fetchMessages_error_keeps_messages conversationId resp st :
  is_Some (error resp) →
  truthy conversationId = true →
  fetchMessages conversationId resp st = setLoading false st
  ∧ messages (fetchMessages conversationId resp st) = messages st
  ∧ (messages st = [] →
     messages (fetchMessages conversationId resp st) = []).
Proof.
  intros [e He] Hc. unfold fetchMessages. rewrite Hc, He.
  by destruct st.
Qed.

Lemma fetchMessages_error_keeps_messages_witness :
  messages
    (fetchMessages (js "c1")
       (mkResponse
          (Some [mkFetchedMessage (js "m9") (js "c1") (js "bob") (js "x")
                   (js "t9") []])
          (Some (js "JWT expired")))
       initialChatState)
  = [].
Proof.
  refine (proj2 (proj2
    (fetchMessages_error_keeps_messages (js "c1")
       (mkResponse
          (Some [mkFetchedMessage (js "m9") (js "c1") (js "bob") (js "x")
                   (js "t9") []])
          (Some (js "JWT expired")))
       initialChatState _ _)) _).
  - simpl. eauto.
  - reflexivity.
  - reflexivity.
Defined.

(** C3 (as stated) fails: the component was showing conversation [c1];
    the fetch for [c2] fails; the view keeps the message of [c1], with the
    loading flag cleared, and the component has no error cell. *)
Lemma fetchMessages_error_shows_stale_list :
  let before :=
    fetchMessages (js "c1")
      (mkResponse
         (Some [mkFetchedMessage (js "m1") (js "c1") (js "bob") (js "yo")
                  (js "t1") []])
         None)
      initialChatState in
  let after :=
    fetchMessages (js "c2") (mkResponse None (Some (js "FetchError")))
      before in
  messages after
  = [mkMessage (js "m1") (js "c1") (js "bob") (js "yo") (js "t1") None]
  ∧ messages after ≠ []
  ∧ loading after = false.
Proof. vm_compute. split_and!; [reflexivity|discriminate|reflexivity]. Qed.











End MessageStream.

(** ** Typing indicator *)

Section Typing.

Variable userId : jsstring.

Implicit Types (rt : Runtime) (u x : jsstring) (evs : list (Z * jsstring)).

Lemma elem_of_addTyping x u (prev : list jsstring) :
  x ∈ addTyping u prev ↔ x = u ∨ x ∈ prev.
Proof.
  unfold addTyping. destruct (decide (u ∈ prev)) as [Hin|Hnin].
  - split; [intros ?; by right | intros [->|?]; done].
  - rewrite elem_of_app, list_elem_of_singleton. tauto.
Qed.

Lemma elem_of_removeTyping x u (prev : list jsstring) :
  x ∈ removeTyping u prev ↔ x ≠ u ∧ x ∈ prev.
Proof. unfold removeTyping. by rewrite list_elem_of_filter. Qed.

Lemma typingUsers_fire st (due : list (Z * jsstring)) :
  typingUsers (foldl (λ s t, setTypingUsers (removeTyping t.2) s) st due)
  = foldl (λ p t, removeTyping t.2 p) (typingUsers st) due.
Proof.
  revert st. induction due as [|t due IH]; intros st; simpl; [done|].
  by rewrite IH.
Qed.

Lemma elem_of_fire x (prev : list jsstring) (due : list (Z * jsstring)) :
  x ∈ foldl (λ p t, removeTyping t.2 p) prev due
  ↔ x ∈ prev ∧ ∀ t, t ∈ due → t.2 ≠ x.
Proof.
  revert prev. induction due as [|t due IH]; intros prev; simpl.
  - split; [intros H; split; [done|] | by intros [H _]].
    intros t Ht. inversion Ht.
  - rewrite IH, elem_of_removeTyping. split.
    + intros [[Hne Hin] Hdue]. split; [done|].
      intros t' [->|Ht']%elem_of_cons; [congruence | by apply Hdue].
    + intros [Hin Hdue]. split_and!; [|done|].
      * intros ->. apply (Hdue t); [by left | done].
      * intros t' Ht'. apply Hdue. by right.
Qed.

(** Who is shown once the clock has reached [now]: those shown before
    that have no removal due by then. *)
Lemma elem_of_typing_advance x now rt :
  x ∈ typingUsers (ui (advance now rt))
  ↔ x ∈ typingUsers (ui rt) ∧ ∀ d, (d, x) ∈ timers rt → now < d.
Proof.
  unfold advance. simpl. rewrite typingUsers_fire, elem_of_fire.
  split; intros [Hin Hdue]; (split; [done|]).
  - intros d Hd. destruct (decide (d ≤ now)) as [Hle|]; [|lia].
    exfalso. apply (Hdue (d, x)); [|done].
    apply list_elem_of_filter. by split.
  - intros [d u] [Hle Ht]%list_elem_of_filter. simpl in *. intros ->.
    apply Hdue in Ht. lia.
Qed.

Lemma elem_of_timers_advance (t : Z * jsstring) now rt :
  t ∈ timers (advance now rt) ↔ t ∈ timers rt ∧ now < t.1.
Proof.
  unfold advance. simpl. rewrite list_elem_of_filter.
  split; intros [? ?]; split; try done; lia.
Qed.

Lemma onTypingBroadcast_other now u rt :
  u ≠ userId →
  typingUsers (ui (onTypingBroadcast userId now u rt))
  = addTyping u (typingUsers (ui rt))
  ∧ timers (onTypingBroadcast userId now u rt)
    = timers rt ++ [(now + 2000, u)].
Proof.
  intros Hne. unfold onTypingBroadcast. by rewrite decide_True.
Qed.

Lemma onTypingBroadcast_self now rt :
  onTypingBroadcast userId now userId rt = rt.
Proof.
  unfold onTypingBroadcast. rewrite decide_False; [done|]. by intros H.
Qed.

Lemma typingTrace_cons e evs rt :
  typingTrace userId (e :: evs) rt = typingTrace userId evs (typingStep userId e rt).
Proof. reflexivity. Qed.

Lemma elem_of_typing_step x e rt :
  x ∈ typingUsers (ui (typingStep userId e rt))
  ↔ (x = e.2 ∧ e.2 ≠ userId)
    ∨ (x ∈ typingUsers (ui rt) ∧ ∀ d, (d, x) ∈ timers rt → e.1 < d).
Proof.
  unfold typingStep. destruct (decide (e.2 = userId)) as [Heq|Hne].
  - rewrite Heq, onTypingBroadcast_self, elem_of_typing_advance.
    split; [by right | intros [[_ ?]|?]; done].
  - destruct (onTypingBroadcast_other e.1 e.2 (advance e.1 rt) Hne)
      as [-> _].
    rewrite elem_of_addTyping, elem_of_typing_advance.
    split; (intros [H|H]; [left | right]); [|done| |done].
    + by rewrite H.
    + destruct H as [-> _]. done.
Qed.

Lemma elem_of_timers_step (t : Z * jsstring) e rt :
  t ∈ timers (typingStep userId e rt)
  ↔ (t ∈ timers rt ∧ e.1 < t.1) ∨ (t = (e.1 + 2000, e.2) ∧ e.2 ≠ userId).
Proof.
  unfold typingStep. destruct (decide (e.2 = userId)) as [Heq|Hne].
  - rewrite Heq, onTypingBroadcast_self, elem_of_timers_advance.
    split; [by left | intros [?|[_ ?]]; done].
  - destruct (onTypingBroadcast_other e.1 e.2 (advance e.1 rt) Hne)
      as [_ ->].
    rewrite elem_of_app, list_elem_of_singleton, elem_of_timers_advance.
    split; (intros [H|H]; [by left | right]); [done | by destruct H].
Qed.

Lemma shownUntil_step D x e rt :
  e.1 < D → (e.2 = x → D ≤ e.1 + 2000) →
  shownUntil D x rt → shownUntil D x (typingStep userId e rt).
Proof.
  intros Ht He [Hin Hd]. split.
  - apply elem_of_typing_step. right. split; [done|].
    intros d Hd'. apply Hd in Hd'. lia.
  - intros d [[Hd' _]|[[= -> ->] _]]%elem_of_timers_step; [by apply Hd|].
    by apply He.
Qed.

Lemma shownUntil_trace D x evs rt :
  Forall (λ e, e.1 < D ∧ (e.2 = x → D ≤ e.1 + 2000)) evs →
  shownUntil D x rt → shownUntil D x (typingTrace userId evs rt).
Proof.
  revert rt. induction evs as [|e evs IH]; intros rt Hevs Hrt; [done|].
  apply list.Forall_cons in Hevs as [[? ?] Hevs].
  rewrite typingTrace_cons. apply IH; [done|]. by apply shownUntil_step.
Qed.

Lemma shownUntil_typingAt D x now rt :
  now < D → shownUntil D x rt → x ∈ typingAt now rt.
Proof.
  intros Hnow [Hin Hd]. unfold typingAt. apply elem_of_typing_advance.
  split; [done|]. intros d Hd'. apply Hd in Hd'. lia.
Qed.

Lemma goneBy_step now x e rt :
  e.2 ≠ x → goneBy now x rt → goneBy now x (typingStep userId e rt).
Proof.
  intros Hne [Hnin|(d & Hd & Hle)].
  - left. rewrite elem_of_typing_step. intros [[? ?]|[? _]]; congruence.
  - destruct (decide (e.1 < d)) as [Hlt|Hge].
    + right. exists d. split; [|done]. apply elem_of_timers_step. by left.
    + left. rewrite elem_of_typing_step. intros [[? ?]|[_ Hall]].
      * congruence.
      * apply Hall in Hd. lia.
Qed.

Lemma goneBy_trace now x evs rt :
  Forall (λ e, e.2 ≠ x) evs →
  goneBy now x rt → goneBy now x (typingTrace userId evs rt).
Proof.
  revert rt. induction evs as [|e evs IH]; intros rt Hevs Hrt; [done|].
  apply list.Forall_cons in Hevs as [? Hevs].
  rewrite typingTrace_cons. apply IH; [done|]. by apply goneBy_step.
Qed.

Lemma goneBy_typingAt now x rt : goneBy now x rt → x ∉ typingAt now rt.
Proof.
  unfold typingAt. rewrite elem_of_typing_advance.
  intros [Hnin|(d & Hd & Hle)] [Hin Hall]; [done|].
  apply Hall in Hd. lia.
Qed.

(** The state right after a typing event of a remote user [x] at [T],
    when no removal of [x] was pending beyond [T]. *)
Lemma shownUntil_after_event x T rt :
  x ≠ userId →
  (∀ d, (d, x) ∈ timers rt → d ≤ T) →
  shownUntil (T + 2000) x (typingStep userId (T, x) rt)
  ∧ (T + 2000, x) ∈ timers (typingStep userId (T, x) rt).
Proof.
  intros Hne Hold. split; [split|].
  - apply elem_of_typing_step. by left.
  - intros d [[Hd Hlt]|[[= -> ] _]]%elem_of_timers_step; [|done].
    apply Hold in Hd. simpl in Hlt. lia.
  - apply elem_of_timers_step. by right.
Qed.

Lemma timer_pending_trace (t : Z * jsstring) evs rt :
  Forall (λ e, e.1 < t.1) evs →
  t ∈ timers rt → t ∈ timers (typingTrace userId evs rt).
Proof.
  revert rt. induction evs as [|e evs IH]; intros rt Hevs Hrt; [done|].
  apply list.Forall_cons in Hevs as [? Hevs].
  rewrite typingTrace_cons. apply IH; [done|].
  apply elem_of_timers_step. by left.
Qed.

(** C6: a remote user [U] sends one typing event, received at [T], and
    nothing else; other users may send events meanwhile.  [U] is in the
    active-typer set at [T + 1900] and not at [T + 2100] (milliseconds):
    the removal scheduled at receipt runs when 2000 ms have passed, so [U]
    is listed at every instant before [T + 2000] and at none from then
    on. *)
Theorem typing_expiry U T rt evs evs' :
  U ≠ userId →
  (∀ d, (d, U) ∈ timers rt → d ≤ T) →
  Forall (λ e, e.2 ≠ U ∧ e.1 ≤ T + 1900) evs →
  Forall (λ e, e.2 ≠ U) evs' →
  let after := typingTrace userId evs (typingStep userId (T, U) rt) in
  let later :=
    typingTrace userId (evs ++ evs') (typingStep userId (T, U) rt) in
  U ∈ typingAt (T + 1900) after
  ∧ (U ∉ typingAt (T + 2100) later)
  ∧ (∀ t, t < T + 2000 → U ∈ typingAt t after)
  ∧ (∀ t, T + 2000 ≤ t → U ∉ typingAt t later).
Proof.
  intros Hne Hold Hevs Hevs' after later.
  destruct (shownUntil_after_event U T rt Hne Hold) as [Hshown Htimer].
  assert (Hin : ∀ t, t < T + 2000 → U ∈ typingAt t after).
  { intros t Ht. apply (shownUntil_typingAt (T + 2000)); [done|].
    apply shownUntil_trace; [|done].
    eapply list.Forall_impl; [exact Hevs|]. intros e [He Hle]. simpl.
    split; [lia | congruence]. }
  assert (Hout : ∀ t, T + 2000 ≤ t → U ∉ typingAt t later).
  { intros t Ht. apply goneBy_typingAt, goneBy_trace.
    - apply Forall_app. split; [|done].
      eapply list.Forall_impl; [exact Hevs|]. by intros e [He _].
    - right. exists (T + 2000). split; [done | lia]. }
  split_and!; [apply Hin; lia | apply Hout; lia | done | done].
Qed.

(** C7 (as the code behaves): a second typing event of [U], received at
    [T2] before the removal of an earlier event at [T1] is due, does not
    restart the countdown.  [U] stays in the set until [T1 + 2000], when
    the removal of the earlier event takes [U] out; from then on [U] is
    absent (no further event of [U] arriving), also before [T2 + 2000]. *)
Theorem typing_second_event_does_not_extend U T1 T2 rt evs1 evs2 :
  U ≠ userId →
  (∀ d, (d, U) ∈ timers rt → d ≤ T1) →
  T1 ≤ T2 < T1 + 2000 →
  Forall (λ e, e.2 ≠ U ∧ e.1 ≤ T2) evs1 →
  Forall (λ e, e.2 ≠ U) evs2 →
  let after :=
    typingTrace userId (evs1 ++ [(T2, U)])
      (typingStep userId (T1, U) rt) in
  (∀ t, t < T1 + 2000 → U ∈ typingAt t after)
  ∧ (∀ now, T1 + 2000 ≤ now →
       U ∉ typingAt now (typingTrace userId evs2 after)).
Proof.
  intros Hne Hold HT Hevs1 Hevs2 after.
  destruct (shownUntil_after_event U T1 rt Hne Hold) as [Hshown Htimer].
  split.
  - intros t Ht. apply (shownUntil_typingAt (T1 + 2000)); [done|].
    apply shownUntil_trace; [|done].
    apply Forall_app. split.
    + eapply list.Forall_impl; [exact Hevs1|]. intros e [He Hle]. simpl.
      split; [lia | congruence].
    + repeat constructor; simpl; lia.
  - intros now Hnow. apply goneBy_typingAt, goneBy_trace; [done|].
    right. exists (T1 + 2000). split; [|done].
    apply (timer_pending_trace (T1 + 2000, U)); [|done].
    apply Forall_app. split.
    + eapply list.Forall_impl; [exact Hevs1|]. intros e [_ Hle]. simpl. lia.
    + repeat constructor; simpl; lia.
Qed.

End Typing.

Lemma typing_expiry_witness :
  let after :=
    typingTrace (js "alice") [(700, js "eve")]
      (typingStep (js "alice") (0, js "bob") initialRuntime) in
  let later :=
    typingTrace (js "alice") ([(700, js "eve")] ++ [(2000, js "eve")])
      (typingStep (js "alice") (0, js "bob") initialRuntime) in
  js "bob" ∈ typingAt (0 + 1900) after
  ∧ (js "bob" ∉ typingAt (0 + 2100) later)
  ∧ (∀ t, t < 0 + 2000 → js "bob" ∈ typingAt t after)
  ∧ (∀ t, 0 + 2000 ≤ t → js "bob" ∉ typingAt t later).
Proof.
  apply (typing_expiry (js "alice") (js "bob") 0 initialRuntime
           [(700, js "eve")] [(2000, js "eve")]).
  - vm_compute. discriminate.
  - intros d Hd. simpl in Hd. inversion Hd.
  - repeat constructor; vm_compute; discriminate.
  - repeat constructor; vm_compute; discriminate.
Defined.

Lemma typing_second_event_does_not_extend_witness :
  let after :=
    typingTrace (js "alice") ([(500, js "eve")] ++ [(1000, js "bob")])
      (typingStep (js "alice") (0, js "bob") initialRuntime) in
  (∀ t, t < 0 + 2000 → js "bob" ∈ typingAt t after)
  ∧ (∀ now, 0 + 2000 ≤ now →
       js "bob" ∉ typingAt now
         (typingTrace (js "alice") [(1500, js "eve")] after)).
Proof.
  apply (typing_second_event_does_not_extend (js "alice") (js "bob") 0 1000
           initialRuntime [(500, js "eve")] [(1500, js "eve")]).
  - vm_compute. discriminate.
  - intros d Hd. simpl in Hd. inversion Hd.
  - lia.
  - repeat constructor; vm_compute; discriminate.
  - repeat constructor; vm_compute; discriminate.
Defined.

(** C7 (as stated) fails: events of [bob] arrive at 0 and at 1000; at
    2100, less than 2000 ms after the later event, [bob] is no longer in
    the set, while at 1900 the set still held [bob]. *)
Lemma typing_countdown_not_restarted :
  let after :=
    typingTrace (js "alice") [(0, js "bob"); (1000, js "bob")]
      initialRuntime in
  2100 < 1000 + 2000
  ∧ typingAt 1900 after = [js "bob"]
  ∧ typingAt 2100 after = [].
Proof. vm_compute. split_and!; reflexivity. Qed.

(** ** Conversation list *)

Section ConversationList.

Variable instant : jsstring → Z.

Implicit Types (db : Database) (st : SidebarState).

#[local] Instance newerFirst_total : Total (newerFirst instant).
Proof. intros a b. unfold newerFirst. lia. Qed.

Lemma conversationsQuery_ids db userId :
  conv_id <$> conversationsQuery instant db userId
  ≡ₚ c_id <$> filter (isMember db userId) (conversations db).
Proof.
  unfold conversationsQuery. rewrite <- list_fmap_compose.
  rewrite merge_sort_Permutation. done.
Qed.

Lemma conversationsQuery_sorted db userId :
  Sorted (λ a b, instant (conv_created_at b) ≤ instant (conv_created_at a))
    (conversationsQuery instant db userId).
Proof.
  unfold conversationsQuery.
  apply (Sorted_fmap _ (newerFirst instant)); [by intros a b|].
  apply Sorted_merge_sort, _.
Qed.

Lemma elem_of_conversationsQuery db userId (c : Conversation) :
  c ∈ conversationsQuery instant db userId
  ↔ ∃ row, c = selectConversation db row ∧ row ∈ conversations db
           ∧ isMember db userId row.
Proof.
  unfold conversationsQuery. rewrite list_elem_of_fmap.
  split; intros (row & -> & Hrow); exists row; (split; [done|]).
  - rewrite merge_sort_Permutation in Hrow.
    apply list_elem_of_filter in Hrow. tauto.
  - rewrite merge_sort_Permutation. apply list_elem_of_filter. tauto.
Qed.

(** C5: after a refresh whose query the platform answered, the list is
    the answer, whatever it was before: it holds exactly the conversations
    of the table for which [user_conversations] has a row of the user,
    each as often as the table holds it, the newest first. *)
Theorem refresh_lists_exactly_memberships db userId st :
  let st' :=
    fetchConversations
      (mkResponse (Some (conversationsQuery instant db userId)) None) st in
  activeConversations st' = conversationsQuery instant db userId
  ∧ conv_id <$> activeConversations st'
    ≡ₚ c_id <$> filter (isMember db userId) (conversations db)
  ∧ (∀ cid, cid ∈ conv_id <$> activeConversations st'
       ↔ ∃ c, c ∈ conversations db ∧ c_id c = cid
           ∧ ∃ uc, uc ∈ user_conversations db
               ∧ uc_conversation_id uc = cid ∧ uc_user_id uc = userId)
  ∧ Sorted (λ a b, instant (conv_created_at b) ≤ instant (conv_created_at a))
      (activeConversations st').
Proof.
  simpl. split_and!.
  - done.
  - apply conversationsQuery_ids.
  - intros cid. rewrite conversationsQuery_ids, list_elem_of_fmap.
    split.
    + intros (c & -> & [Hm Hc]%list_elem_of_filter).
      exists c. split; [done|]. split; [done|].
      apply list.Exists_exists in Hm as (uc & Huc & ? & ?). by exists uc.
    + intros (c & Hc & <- & uc & Huc & ? & ?). exists c. split; [done|].
      apply list_elem_of_filter. split; [|done].
      apply list.Exists_exists. by exists uc.
  - apply conversationsQuery_sorted.
Qed.

End ConversationList.

(** ** Creating a conversation *)

Section CreateConversation.

Variable instant : jsstring → Z.

Implicit Types (db : Database) (st : SidebarState) (u : User).

Lemma addedUserConversations_fmap {B} (g : UserConversationRow → B)
  (h : UserConversationInsert → B) now rowids rows db :
  (∀ rowid uci, g (userConversationRowOf now rowid uci) = h uci) →
  g <$> addedUserConversations now rowids rows db = h <$> rows.
Proof.
  intros Hgh. unfold addedUserConversations. rewrite fmap_imap.
  rewrite <- (imap_const h). apply imap_ext. intros i x _. apply Hgh.
Qed.

Lemma displayName_cases u : displayName u = displayNameCases u.
Proof.
  unfold displayName, displayNameCases, or_opt, js_or, truthy_opt.
  destruct (u_full_name u) as [[|c s]|], (u_username u) as [[|c' s']|];
    reflexivity.
Qed.

(** C10 (as the code behaves): once the conversation insert is accepted,
    the name stored for a direct conversation is the first selected user's
    [full_name] when that is set and not empty, else their [username] when
    that is set and not empty, else their [email], whatever the platform
    answers to the membership insert that follows.  The name is stored
    once, in the shared row: whatever membership rows exist later, every
    user whose list holds the conversation, or who opens it, is given that
    same name. *)
Theorem direct_conversation_name userId conversationId now rowids ucErr st
  db u rest :
  selectedUsers st = u :: rest →
  isGroup st = false →
  conversationId ∉ c_id <$> conversations db →
  let out :=
    createConversation userId conversationId now rowids None ucErr st db in
  conversations (co_db out)
  = conversations db
      ++ [mkConversationRow conversationId (displayNameCases u) None false
            None None now now]
  ∧ ∀ db', conversations db' = conversations (co_db out) →
      (∀ viewer c, c ∈ conversationsQuery instant db' viewer →
         conv_id c = conversationId → conv_name c = displayNameCases u)
      ∧ (∀ viewer name,
           data (conversationDetailsQuery db' viewer conversationId)
           = Some name →
           name = displayNameCases u).
Proof.
  intros Hsel Hgroup Hfresh out.
  set (row := mkConversationRow conversationId (displayNameCases u) None
                false None None now now).
  assert (Hconv : conversations (co_db out) = conversations db ++ [row]).
  { unfold out, createConversation. rewrite Hsel, Hgroup. simpl.
    rewrite displayName_cases. by destruct ucErr. }
  split; [done|]. intros db' Hdb'.
  assert (Hrow : ∀ r, r ∈ conversations db' →
                      c_id r = conversationId → r = row).
  { intros r Hr Hid. rewrite Hdb', Hconv in Hr.
    apply elem_of_app in Hr as [Hr|Hr%list_elem_of_singleton]; [|done].
    exfalso. apply Hfresh. rewrite <- Hid. by apply list_elem_of_fmap_2. }
  split.
  - intros viewer c (r & -> & Hr & _)%elem_of_conversationsQuery Hid.
    simpl in Hid. by rewrite (Hrow r Hr Hid).
  - intros viewer name. unfold conversationDetailsQuery.
    destruct (filter _ (conversations db')) as [|r [|r' l]] eqn:Hf;
      simpl; try done.
    intros [= <-].
    assert (Hr : r ∈ filter (λ c, c_id c = conversationId
                                  ∧ isMember db' viewer c)
                   (conversations db')) by (rewrite Hf; by left).
    apply list_elem_of_filter in Hr as [[Hid _] Hr].
    by rewrite (Hrow r Hr Hid).
Qed.

End CreateConversation.

Lemma direct_conversation_name_witness :
  let out :=
    createConversation alice (js "c9") (js "t0") sampleRowids None
      (Some (js "42501")) (directDialog bob) threeUsers in
  conversations (co_db out)
  = conversations threeUsers
      ++ [mkConversationRow (js "c9") (displayNameCases bob) None false
            None None (js "t0") (js "t0")]
  ∧ ∀ db', conversations db' = conversations (co_db out) →
      (∀ viewer c, c ∈ conversationsQuery sampleInstant db' viewer →
         conv_id c = js "c9" → conv_name c = displayNameCases bob)
      ∧ (∀ viewer name,
           data (conversationDetailsQuery db' viewer (js "c9")) = Some name →
           name = displayNameCases bob).
Proof.
  apply (direct_conversation_name sampleInstant alice (js "c9") (js "t0")
           sampleRowids (Some (js "42501")) (directDialog bob) threeUsers
           bob []).
  - reflexivity.
  - reflexivity.
  - simpl. intros H. inversion H.
Defined.

(** C10 (as stated) fails: the signed-in user starts a direct conversation
    with a user whose full name is set, to the empty string.  The schema
    accepts the conversation row and rejects the membership rows: the row
    is named after the username, and neither of the two users has the
    conversation in their list. *)
Lemma direct_name_skips_empty_full_name :
  let out :=
    createConversationOnSchema alice (js "c9") (js "t0") sampleRowids
      (directDialog bobNoFullName) threeUsers in
  u_full_name bobNoFullName = Some []
  ∧ c_name <$> conversations (co_db out) = [js "bob"]
  ∧ js "bob" ≠ []
  ∧ user_conversations (co_db out) = []
  ∧ conversationsQuery sampleInstant (co_db out) alice = []
  ∧ conversationsQuery sampleInstant (co_db out) (u_id bobNoFullName) = [].
Proof. vm_compute. split_and!; try reflexivity. discriminate. Qed.

(** C8, on the code: the signed-in user creates a group from the dialog.
    The rows sent to [user_conversations] carry a user and a conversation
    and no [is_admin], the creator's row like the member's.  The schema
    accepts the conversation row and, by its insert policy, rejects the
    membership rows as a whole: the group is stored and its creator has
    no membership row, so none with [is_admin]. *)
Lemma group_creator_is_not_admin :
  let out :=
    createConversationOnSchema alice (js "c9") (js "t0") sampleRowids
      (groupDialog bob) threeUsers in
  (λ c, (c_id c, c_is_group c)) <$> conversations (co_db out)
  = [(js "c9", true)]
  ∧ userConversationsOf alice (js "c9") (selectedUsers (groupDialog bob))
    = [mkUserConversationInsert alice (js "c9");
       mkUserConversationInsert (js "bob") (js "c9")]
  ∧ filter (λ r, uc_user_id r = alice ∧ uc_is_admin r = true)
      (user_conversations (co_db out)) = []
  ∧ user_conversations (co_db out) = []
  ∧ co_pushed out = None.
Proof. vm_compute. split_and!; reflexivity. Qed.

(** ** Switching the conversation *)

(** C9, on the code: the component shows [c1], then the route changes to
    [c2].  The effect returned no cleanup, so the channel of [c1] is still
    subscribed next to the one of [c2], and an INSERT for [c1] delivered
    afterwards is appended to the sequence that shows [c2]. *)
Lemma stale_subscription_appends :
  let shown1 := mount (js "c1") (ok [fetched "m1" "c1"]) (ok (js "Bob")) in
  let shown2 :=
    navigate (js "c2") (ok [fetched "n1" "c2"]) (ok (js "Team")) shown1 in
  let late :=
    mkMessage (js "m7") (js "c1") (js "bob") (js "late") (js "t7") None in
  m_cleanup shown1 = None
  ∧ m_conversationId shown2 = js "c2"
  ∧ ch_listener <$> channels (m_runtime shown2)
    = [OnMessageInsert (js "c1"); OnTyping;
       OnMessageInsert (js "c2"); OnTyping]
  ∧ msg_conversation_id
      <$> messages (ui (deliverInsert late None (m_runtime shown2)))
    = [js "c2"; js "c1"]
  ∧ messages (ui (deliverInsert late None (m_runtime shown2)))
    = messages (ui (m_runtime shown2)) ++ [late].
Proof. vm_compute. split_and!; reflexivity. Qed.

(** ** Further properties of the message stream *)

Section SendMessage.

Implicit Types (st : ChatState) (s : jsstring).

Lemma trimStart_blank s : blank s → trimStart s = [].
Proof.
  induction 1 as [|c s Hc _ IH]; simpl; [done|]. by rewrite Hc.
Qed.

Lemma trimStart_nil_blank s : trimStart s = [] → blank s.
Proof.
  induction s as [|c s IH]; simpl; [by constructor|].
  destruct (is_white_space c) eqn:Hc; [|done].
  intros H. constructor; [done | by apply IH].
Qed.

(** [trim] gives the empty string exactly on the texts made of white
    space only. *)
Lemma trim_nil_iff s : trim s = [] ↔ blank s.
Proof.
  unfold trim, trimEnd. split.
  - intros H. apply (f_equal reverse) in H.
    rewrite reverse_involutive, reverse_nil in H.
    apply trimStart_nil_blank in H.
    unfold blank in H. rewrite list.Forall_reverse in H.
    destruct (trimStart s) as [|c t] eqn:Ht; [by apply trimStart_nil_blank|].
    exfalso. apply list.Forall_cons in H as [Hc _].
    clear -Ht Hc. induction s as [|c' s IH]; simpl in Ht; [done|].
    destruct (is_white_space c') eqn:Hc'; [by apply IH|].
    congruence.
  - intros H. rewrite (trimStart_blank s H). reflexivity.
Qed.

Lemma truthy_trim s : truthy (trim s) = false ↔ blank s.
Proof.
  rewrite <- trim_nil_iff. destruct (trim s); simpl; split; done.
Qed.

(** A send is issued exactly when the text holds a character that is not
    white space and a conversation is open; otherwise the handler leaves
    the state as it is and nothing is sent. *)
Theorem sendMessage_guard conversationId userId messageId now st :
  (blank (newMessage st) ∨ conversationId = [] ↔
   handleSendMessage_begin conversationId userId messageId now st
   = (st, None))
  ∧ (¬ blank (newMessage st) → conversationId ≠ [] →
     (handleSendMessage_begin conversationId userId messageId now st).2
     = Some (newMessageObj conversationId userId (newMessage st) messageId
               now)).
Proof.
  unfold handleSendMessage_begin.
  destruct (truthy (trim (newMessage st))) eqn:Ht;
    destruct conversationId as [|c cs]; simpl.
  - split; [split; [done | by right] | done].
  - assert (¬ blank (newMessage st)) as Hnb.
    { intros Hb%truthy_trim. congruence. }
    split; [|done]. split; [intros [?|?]; done | discriminate].
  - apply truthy_trim in Ht. split; [split; [done | by left] | done].
  - apply truthy_trim in Ht. split; [split; [done | by left] | done].
Qed.

(** An accepted send shows the message at the end of the sequence, with
    the text as typed (not trimmed), the sender, the conversation and the
    client-side identifier and time, and empties the input. *)
Theorem sendMessage_accepted conversationId userId messageId now persist st :
  ¬ blank (newMessage st) →
  conversationId ≠ [] →
  (∀ obj, persist obj = None) →
  let st' :=
    handleSendMessage conversationId userId messageId now persist st in
  messages st'
  = messages st
      ++ [mkMessage messageId conversationId userId (newMessage st) now None]
  ∧ newMessage st' = []
  ∧ typingUsers st' = typingUsers st
  ∧ conversationName st' = conversationName st.
Proof.
  intros Hnb Hc Hok. unfold handleSendMessage, handleSendMessage_begin.
  destruct (truthy (trim (newMessage st))) eqn:Ht.
  - destruct conversationId as [|c cs]; [done|]. simpl.
    rewrite Hok. by destruct st.
  - by apply truthy_trim in Ht.
Qed.

Lemma sendMessage_accepted_witness :
  let st' :=
    handleSendMessage (js "c1") alice (js "m1") (js "t1") (λ _, None)
      (setNewMessage (js " hi ") initialChatState) in
  messages st'
  = messages (setNewMessage (js " hi ") initialChatState)
      ++ [mkMessage (js "m1") (js "c1") alice
            (newMessage (setNewMessage (js " hi ") initialChatState))
            (js "t1") None]
  ∧ newMessage st' = []
  ∧ typingUsers st'
    = typingUsers (setNewMessage (js " hi ") initialChatState)
  ∧ conversationName st'
    = conversationName (setNewMessage (js " hi ") initialChatState).
Proof.
  apply (sendMessage_accepted (js "c1") alice (js "m1") (js "t1")
           (λ _, None) (setNewMessage (js " hi ") initialChatState)).
  - intros Hb%truthy_trim. vm_compute in Hb. discriminate.
  - vm_compute. discriminate.
  - reflexivity.
Defined.

(** Live inserts that are handled while a send is in flight survive the
    rollback of the send: after the failure the sequence is the one before
    the send followed by the inserts, in the order in which their handlers
    completed. *)
Theorem rollback_keeps_live_inserts conversationId userId messageId now e
  evs st :
  messageId ∉ msg_id <$> messages st →
  messageId ∉ (λ ev, msg_id ev.1) <$> evs →
  let st1 :=
    (handleSendMessage_begin conversationId userId messageId now st).1 in
  messages (handleSendMessage_end messageId (Some e) (applyInserts evs st1))
  = messages st ++ ((λ ev, annotated ev.1 ev.2) <$> evs).
Proof.
  intros Hst Hevs st1. simpl.
  rewrite applyInserts_messages.
  assert (Hevs' : filter (λ msg, msg_id msg ≠ messageId)
                    ((λ ev : Message * option MessageUser,
                        annotated ev.1 ev.2) <$> evs)
                  = (λ ev, annotated ev.1 ev.2) <$> evs).
  { apply filter_fresh_id. rewrite <- list_fmap_compose.
    intros Hin. apply Hevs.
    apply list_elem_of_fmap in Hin as (ev & -> & Hev).
    apply list_elem_of_fmap. exists ev. split; [|done].
    simpl. by rewrite annotated_id. }
  rewrite list.filter_app, Hevs'. f_equal.
  unfold st1, handleSendMessage_begin.
  destruct (negb (truthy (trim (newMessage st)))
            || negb (truthy conversationId)); simpl.
  - by apply filter_fresh_id.
  - rewrite list.filter_app, filter_fresh_id by done.
    rewrite filter_cons_False, filter_nil, app_nil_r; [done|].
    simpl. by intros H.
Qed.

Lemma rollback_keeps_live_inserts_witness :
  let st := setNewMessage (js "hi") initialChatState in
  let live :=
    [(mkMessage (js "m5") (js "c1") (js "bob") (js "yo") (js "t5") None,
      None)] in
  let st1 :=
    (handleSendMessage_begin (js "c1") alice (js "m1") (js "t1") st).1 in
  messages
    (handleSendMessage_end (js "m1") (Some (js "PersistError"))
       (applyInserts live st1))
  = messages st ++ ((λ ev, annotated ev.1 ev.2) <$> live).
Proof.
  apply (rollback_keeps_live_inserts (js "c1") alice (js "m1") (js "t1")
           (js "PersistError")
           [(mkMessage (js "m5") (js "c1") (js "bob") (js "yo") (js "t5")
               None, None)]
           (setNewMessage (js "hi") initialChatState)).
  - simpl. intros H. inversion H.
  - vm_compute. intros H. apply list_elem_of_In in H. simpl in H.
    destruct H as [H|[]]. discriminate H.
Defined.

End SendMessage.

(** ** Further properties of the subscriptions *)

Section Subscriptions.

Implicit Types (rt : Runtime) (m : Mounted) (row : Message).

(** An INSERT for a conversation no channel is subscribed to changes
    nothing. *)
Theorem deliverInsert_not_subscribed row p rt :
  Forall (λ ch, ch_listener ch ≠ OnMessageInsert (msg_conversation_id row))
    (channels rt) →
  deliverInsert row p rt = rt.
Proof.
  unfold deliverInsert. generalize (channels rt) as chs. intros chs.
  revert rt. induction chs as [|ch chs IH]; intros rt Hchs; simpl; [done|].
  apply list.Forall_cons in Hchs as [Hch Hchs].
  destruct (ch_listener ch) as [f|]; [|by apply IH].
  destruct (decide (f = msg_conversation_id row)) as [->|]; [done|].
  by apply IH.
Qed.

Lemma deliverInsert_not_subscribed_witness :
  deliverInsert
    (mkMessage (js "m7") (js "c3") (js "bob") (js "x") (js "t7") None) None
    (m_runtime (mount (js "c1") (ok []) (ok (js "Bob"))))
  = m_runtime (mount (js "c1") (ok []) (ok (js "Bob"))).
Proof.
  apply (deliverInsert_not_subscribed
           (mkMessage (js "m7") (js "c3") (js "bob") (js "x") (js "t7") None)
           None (m_runtime (mount (js "c1") (ok []) (ok (js "Bob"))))).
  repeat constructor; vm_compute; discriminate.
Defined.

Lemma conversationEffect_channels conversationId msgs details rt :
  truthy conversationId = true →
  channels (conversationEffect conversationId msgs details rt).1
  = channels rt
      ++ [mkChannel (next_handle rt) (js "messages:" ++ conversationId)
            (OnMessageInsert conversationId);
          mkChannel (S (next_handle rt)) (js "typing:" ++ conversationId)
            OnTyping]
  ∧ next_handle (conversationEffect conversationId msgs details rt).1
    = S (S (next_handle rt))
  ∧ (conversationEffect conversationId msgs details rt).2 = None
  ∧ ui (conversationEffect conversationId msgs details rt).1
    = fetchConversationDetails conversationId details
        (fetchMessages conversationId msgs (ui rt)).
Proof.
  intros Hc. unfold conversationEffect. rewrite Hc. simpl.
  by rewrite <- app_assoc.
Qed.

Lemma conversationEffect_no_cleanup conversationId msgs details rt :
  (conversationEffect conversationId msgs details rt).2 = None.
Proof.
  unfold conversationEffect. by destruct (truthy conversationId).
Qed.

Lemma mount_no_cleanup conversationId msgs details :
  m_cleanup (mount conversationId msgs details) = None.
Proof.
  unfold mount.
  pose proof (conversationEffect_no_cleanup conversationId msgs details
                initialRuntime) as H.
  destruct (conversationEffect _ _ _ _) as [rt c]. by simpl in *.
Qed.

Lemma navigate_no_cleanup conversationId msgs details m :
  m_cleanup m = None →
  m_cleanup (navigate conversationId msgs details m) = None.
Proof.
  intros Hm. unfold navigate.
  destruct (decide (m_conversationId m = conversationId)); [done|].
  rewrite Hm.
  pose proof (conversationEffect_no_cleanup conversationId msgs details
                (m_runtime m)) as H.
  destruct (conversationEffect _ _ _ _) as [rt c]. by simpl in *.
Qed.

Lemma navigate_channels conversationId msgs details m :
  m_cleanup m = None →
  channels (m_runtime m)
    `prefix_of` channels (m_runtime (navigate conversationId msgs details m)).
Proof.
  intros Hm. unfold navigate.
  destruct (decide (m_conversationId m = conversationId)); [done|].
  rewrite Hm. unfold conversationEffect.
  destruct (truthy conversationId); simpl; [|done].
  rewrite <- app_assoc. by apply prefix_app_r.
Qed.

(** No route change ever removes a channel: whatever conversations the
    component is taken through after mounting, the channels subscribed so
    far stay subscribed, in the order of subscription, and no cleanup is
    ever registered. *)
Theorem channels_never_removed conversationId msgs details targets :
  let m0 := mount conversationId msgs details in
  channels (m_runtime m0)
    `prefix_of` channels (m_runtime (navigations targets m0))
  ∧ m_cleanup (navigations targets m0) = None.
Proof.
  simpl. generalize (mount_no_cleanup conversationId msgs details).
  generalize (mount conversationId msgs details). intros m Hm.
  revert m Hm. induction targets as [|t targets IH]; intros m Hm; [done|].
  unfold navigations in *. simpl.
  destruct (IH (navigate t.1.1 t.1.2 t.2 m)) as [Hpre Hclean].
  { by apply navigate_no_cleanup. }
  split; [|done]. etrans; [|exact Hpre]. by apply navigate_channels.
Qed.

(** The slip behind C9, for every pair of conversations: after a change
    from [c1] to another conversation [c2], an INSERT for [c1] is still
    handled, once, and lands at the end of the sequence shown for [c2]. *)
Theorem stale_channel_still_delivers c1 c2 msgs1 details1 msgs2 details2
  row p :
  truthy c1 = true → truthy c2 = true → c1 ≠ c2 →
  msg_conversation_id row = c1 →
  let shown2 :=
    navigate c2 msgs2 details2 (mount c1 msgs1 details1) in
  OnMessageInsert c1 ∈ ch_listener <$> channels (m_runtime shown2)
  ∧ messages (ui (deliverInsert row p (m_runtime shown2)))
    = messages (ui (m_runtime shown2)) ++ [annotated row p].
Proof.
  intros H1 H2 Hne Hrow. unfold navigate, mount.
  destruct (conversationEffect_channels c1 msgs1 details1 initialRuntime H1)
    as (Hch1 & Hn1 & Hc1 & _).
  destruct (conversationEffect c1 msgs1 details1 initialRuntime)
    as [rt1 cl1]. cbn [fst snd] in *. subst cl1.
  cbn [m_conversationId m_cleanup m_runtime].
  rewrite decide_False by done.
  destruct (conversationEffect_channels c2 msgs2 details2 rt1 H2)
    as (Hch2 & _ & _ & _).
  destruct (conversationEffect c2 msgs2 details2 rt1) as [rt2 cl2].
  cbn [fst snd m_runtime] in *. split.
  - rewrite Hch2, Hch1. cbn [initialRuntime channels app fmap list_fmap
      ch_listener]. by left.
  - unfold deliverInsert. rewrite Hch2, Hch1.
    cbn [initialRuntime channels app foldl ch_listener].
    rewrite Hrow. rewrite (decide_False (P:=c2 = c1)) by congruence.
    rewrite decide_True by done.
    cbn [onUi ui]. apply fetchMessageWithUser_messages.
Qed.

Lemma stale_channel_still_delivers_witness :
  let row :=
    mkMessage (js "m7") (js "c1") (js "bob") (js "late") (js "t7") None in
  let shown2 :=
    navigate (js "c2") (ok [fetched "n1" "c2"]) (ok (js "Team"))
      (mount (js "c1") (ok [fetched "m1" "c1"]) (ok (js "Bob"))) in
  OnMessageInsert (js "c1") ∈ ch_listener <$> channels (m_runtime shown2)
  ∧ messages (ui (deliverInsert row None (m_runtime shown2)))
    = messages (ui (m_runtime shown2)) ++ [annotated row None].
Proof.
  apply (stale_channel_still_delivers (js "c1") (js "c2")
           (ok [fetched "m1" "c1"]) (ok (js "Bob"))
           (ok [fetched "n1" "c2"]) (ok (js "Team"))
           (mkMessage (js "m7") (js "c1") (js "bob") (js "late") (js "t7")
              None) None).
  - reflexivity.
  - reflexivity.
  - vm_compute. discriminate.
  - reflexivity.
Defined.

End Subscriptions.

(** ** Further properties of the typing indicator *)

Section TypingInvariants.

Variable userId : jsstring.

Implicit Types (rt : Runtime) (x u : jsstring) (evs : list (Z * jsstring)).

Lemma NoDup_addTyping u (prev : list jsstring) :
  NoDup prev → NoDup (addTyping u prev).
Proof.
  intros Hnd. unfold addTyping. destruct (decide (u ∈ prev)); [done|].
  apply list.NoDup_app. split_and!; [done| |apply NoDup_singleton].
  intros x Hx ->%list_elem_of_singleton. done.
Qed.

Lemma NoDup_fire (prev : list jsstring) (due : list (Z * jsstring)) :
  NoDup prev → NoDup (foldl (λ p t, removeTyping t.2 p) prev due).
Proof.
  revert prev. induction due as [|t due IH]; intros prev Hnd; [done|].
  simpl. apply IH. by apply list.NoDup_filter.
Qed.

Lemma typersWellFormed_step e rt :
  typersWellFormed userId rt →
  typersWellFormed userId (typingStep userId e rt).
Proof.
  intros [Hnd Hself]. split.
  - unfold typingStep, onTypingBroadcast.
    destruct (decide (e.2 ≠ userId)); simpl;
      rewrite typingUsers_fire; [apply NoDup_addTyping|];
      by apply NoDup_fire.
  - rewrite elem_of_typing_step. intros [[? ?]|[? _]]; congruence.
Qed.

(** The active-typer set never lists a user twice and never lists the
    local user, whatever broadcasts arrive (the local user's own
    included) and whenever the removals run. *)
Theorem typingUsers_well_formed evs now rt :
  typersWellFormed userId rt →
  NoDup (typingAt now (typingTrace userId evs rt))
  ∧ userId ∉ typingAt now (typingTrace userId evs rt).
Proof.
  revert rt. induction evs as [|e evs IH]; intros rt Hrt.
  - destruct Hrt as [Hnd Hself]. unfold typingAt, advance. simpl.
    rewrite typingUsers_fire. split; [by apply NoDup_fire|].
    rewrite elem_of_fire. by intros [? _].
  - rewrite typingTrace_cons. by apply IH, typersWellFormed_step.
Qed.

Lemma covered_step bound e rt :
  e.1 + 2000 ≤ bound →
  covered bound rt → covered bound (typingStep userId e rt).
Proof.
  intros Hb Hcov x [[-> Hne]|[Hin Hall]]%elem_of_typing_step.
  - exists (e.1 + 2000). split; [|done].
    apply elem_of_timers_step. by right.
  - destruct (Hcov x Hin) as (d & Hd & Hle). exists d. split; [|done].
    apply elem_of_timers_step. left. split; [done|]. by apply Hall.
Qed.

Lemma covered_trace bound evs rt :
  Forall (λ e, e.1 + 2000 ≤ bound) evs →
  covered bound rt → covered bound (typingTrace userId evs rt).
Proof.
  revert rt. induction evs as [|e evs IH]; intros rt Hevs Hrt; [done|].
  apply list.Forall_cons in Hevs as [? Hevs].
  rewrite typingTrace_cons. apply IH; [done|]. by apply covered_step.
Qed.

(** The indicator always clears: once 2000 ms have passed since the last
    broadcast, nobody is shown as typing. *)
Theorem typing_indicator_clears evs now :
  Forall (λ e, e.1 + 2000 ≤ now) evs →
  typingAt now (typingTrace userId evs initialRuntime) = [].
Proof.
  intros Hevs.
  assert (Hcov : covered now (typingTrace userId evs initialRuntime)).
  { apply covered_trace; [done|]. intros x Hx. inversion Hx. }
  destruct (typingAt now (typingTrace userId evs initialRuntime))
    as [|x l] eqn:Heq; [done|].
  exfalso.
  assert (Hx : x ∈ typingAt now (typingTrace userId evs initialRuntime))
    by (rewrite Heq; by left).
  unfold typingAt in Hx. apply elem_of_typing_advance in Hx as [Hin Hall].
  destruct (Hcov x Hin) as (d & Hd & Hle). apply Hall in Hd. lia.
Qed.

End TypingInvariants.

Lemma typingUsers_well_formed_witness :
  NoDup (typingAt 1500
           (typingTrace alice
              [(0, js "bob"); (10, alice); (20, js "bob"); (30, js "eve")]
              initialRuntime))
  ∧ alice ∉ typingAt 1500
              (typingTrace alice
                 [(0, js "bob"); (10, alice); (20, js "bob");
                  (30, js "eve")]
                 initialRuntime).
Proof.
  apply (typingUsers_well_formed alice
           [(0, js "bob"); (10, alice); (20, js "bob"); (30, js "eve")]
           1500 initialRuntime).
  split; simpl; [constructor | intros H; inversion H].
Defined.

Lemma typing_indicator_clears_witness :
  typingAt 2030
    (typingTrace alice [(0, js "bob"); (20, js "bob"); (30, js "eve")]
       initialRuntime)
  = [].
Proof.
  apply (typing_indicator_clears alice
           [(0, js "bob"); (20, js "bob"); (30, js "eve")] 2030).
  repeat constructor; simpl; lia.
Defined.

(** ** Further properties of the new-conversation dialog *)

Section Dialog.

Implicit Types (st : SidebarState) (user : User).

(** Adding a user that was not selected and removing them again restores
    the selection. *)
Theorem removeUser_addUser user st :
  u_id user ∉ u_id <$> selectedUsers st →
  selectedUsers (removeUser (u_id user) (addUser user st)) = selectedUsers st
  ∧ u_id user ∉ u_id <$> searchResults (addUser user st).
Proof.
  intros Hnew. split.
  - unfold removeUser, addUser. simpl. rewrite list.filter_app.
    rewrite filter_cons_False, filter_nil, app_nil_r by (simpl; tauto).
    clear -Hnew. induction (selectedUsers st) as [|u l IH]; [done|].
    simpl in Hnew. apply not_elem_of_cons in Hnew as [Hne Hl].
    rewrite filter_cons_True by congruence. by rewrite IH.
  - unfold addUser. simpl. intros (r & Heq & Hr)%list_elem_of_fmap.
    apply list_elem_of_filter in Hr as [Hne _]. congruence.
Qed.

Lemma removeUser_addUser_witness :
  selectedUsers
    (removeUser (u_id bob) (addUser bob (initialSidebarState [])))
  = selectedUsers (initialSidebarState [])
  ∧ u_id bob ∉ u_id <$> searchResults (addUser bob (initialSidebarState [])).
Proof.
  apply (removeUser_addUser bob (initialSidebarState [])).
  simpl. intros H. inversion H.
Defined.

Lemma searchUsers_selectedUsers resp st :
  selectedUsers (searchUsers resp st) = selectedUsers st.
Proof.
  unfold searchUsers, searchUsers_begin, searchUsers_end.
  destruct (negb (truthy (trim (searchUserTerm st)))); [done|].
  by destruct (error resp), (data resp).
Qed.

(** What a search leaves in the result list: when the platform answered,
    the rows of the answer that are not selected yet, in the order of the
    answer; when it did not (or the term is blank), the list as it was. *)
Theorem searchUsers_results resp st :
  (¬ blank (searchUserTerm st) → error resp = None →
   ∀ rows, data resp = Some rows →
     searchResults (searchUsers resp st)
     = filter (λ user, u_id user ∉ u_id <$> selectedUsers st) rows
     ∧ sb_error (searchUsers resp st) = []
     ∧ isLoading (searchUsers resp st) = false)
  ∧ (blank (searchUserTerm st) → searchUsers resp st = st)
  ∧ (¬ blank (searchUserTerm st) →
     is_Some (error resp) ∨ data resp = None →
     searchResults (searchUsers resp st) = searchResults st
     ∧ sb_error (searchUsers resp st) = js "Failed to search users"
     ∧ isLoading (searchUsers resp st) = false).
Proof.
  unfold searchUsers, searchUsers_begin, searchUsers_end. split_and!.
  - intros Hnb Herr rows Hrows.
    destruct (truthy (trim (searchUserTerm st))) eqn:Ht;
      [|by apply truthy_trim in Ht].
    simpl. rewrite Herr, Hrows. simpl. split_and!; [|done..].
    apply list_filter_iff. intros user.
    rewrite list.Exists_exists, list_elem_of_fmap. split.
    + intros Hno (sel & Heq & Hsel). apply Hno. by exists sel.
    + intros Hno (sel & Hsel & Heq). apply Hno. by exists sel.
  - intros Hb%truthy_trim. by rewrite Hb.
  - intros Hnb Hfail.
    destruct (truthy (trim (searchUserTerm st))) eqn:Ht;
      [|by apply truthy_trim in Ht].
    simpl. destruct Hfail as [[e ->]| ->]; [done|].
    by destruct (error resp).
Qed.

Lemma selectionWellFormed_search resp st :
  selectionWellFormed st → selectionWellFormed (searchUsers resp st).
Proof.
  intros [Hnd Hres]. split.
  - by rewrite searchUsers_selectedUsers.
  - rewrite searchUsers_selectedUsers.
    destruct (searchUsers_results resp st) as (Hok & Hblank & Hfail).
    destruct (decide (blank (searchUserTerm st))) as [Hb|Hnb].
    { rewrite (Hblank Hb). exact Hres. }
    destruct (error resp) as [e|] eqn:He.
    { destruct (Hfail Hnb) as [-> _]; [left; eauto | exact Hres]. }
    destruct (data resp) as [rows|] eqn:Hd.
    + destruct (Hok Hnb eq_refl rows eq_refl) as [-> _].
      intros r [Hr _]%list_elem_of_filter. exact Hr.
    + destruct (Hfail Hnb) as [-> _]; [by right | exact Hres].
Qed.

Lemma selectionWellFormed_type term resp st :
  selectionWellFormed st →
  selectionWellFormed (searchEffect resp (setSearchUserTerm term st)).
Proof.
  intros Hst. unfold searchEffect.
  destruct (truthy (searchUserTerm (setSearchUserTerm term st))).
  - apply selectionWellFormed_search. exact Hst.
  - destruct Hst as [Hnd _]. split; [done|]. intros r Hr. inversion Hr.
Qed.

Lemma selectionWellFormed_click i st :
  selectionWellFormed st → selectionWellFormed (clickResult i st).
Proof.
  intros [Hnd Hres]. unfold clickResult.
  destruct (searchResults st !! i) as [user|] eqn:Hi; [|done].
  apply list_elem_of_lookup_2 in Hi. unfold addUser. split; simpl.
  - rewrite fmap_app. simpl. apply list.NoDup_app. split_and!; [done| |].
    + intros x Hx ->%list_elem_of_singleton. by apply (Hres user).
    + apply NoDup_singleton.
  - intros r [Hne Hr]%list_elem_of_filter. rewrite fmap_app.
    simpl. rewrite elem_of_app, list_elem_of_singleton. intros [Hin|Heq].
    + by apply (Hres r).
    + done.
Qed.

Lemma selectionWellFormed_remove i st :
  selectionWellFormed st → selectionWellFormed (clickRemove i st).
Proof.
  intros [Hnd Hres]. unfold clickRemove.
  destruct (selectedUsers st !! i) as [user|]; [|done].
  unfold removeUser. split; simpl.
  - apply (NoDup_fmap_2_strong u_id).
    + intros a b [_ Ha]%list_elem_of_filter [_ Hb]%list_elem_of_filter Hab.
      apply (NoDup_fmap_1 u_id) in Hnd as Hnd'.
      clear -Hnd Ha Hb Hab. induction (selectedUsers st) as [|c l IH];
        [inversion Ha|].
      simpl in Hnd. apply list.NoDup_cons in Hnd as [Hc Hl].
      apply elem_of_cons in Ha as [->|Ha], Hb as [->|Hb]; try done.
      * exfalso. apply Hc. rewrite Hab. by apply list_elem_of_fmap_2.
      * exfalso. apply Hc. rewrite <- Hab. by apply list_elem_of_fmap_2.
      * by apply IH.
    + apply list.NoDup_filter. by apply (NoDup_fmap_1 u_id).
  - intros r Hr (sel & Heq & [_ Hsel]%list_elem_of_filter)%list_elem_of_fmap.
    apply (Hres r Hr). rewrite Heq. by apply list_elem_of_fmap_2.
Qed.

(** However the dialog is driven (typed terms with any answers, clicks
    on listed results, removals), as long as every search is answered
    before the next action no user is ever selected twice, so
    [createConversation] does not send two membership rows for the same
    selected user. *)
Theorem selection_never_repeats (actions : list DialogAction) convs userId
  conversationId :
  let st := foldl dialogStep (initialSidebarState convs) actions in
  NoDup (u_id <$> selectedUsers st)
  ∧ NoDup ((λ user, mkUserConversationInsert (u_id user) conversationId)
             <$> selectedUsers st)
  ∧ tail (userConversationsOf userId conversationId (selectedUsers st))
    = (λ user, mkUserConversationInsert (u_id user) conversationId)
        <$> selectedUsers st.
Proof.
  simpl.
  assert (Hwf : selectionWellFormed
                  (foldl dialogStep (initialSidebarState convs) actions)).
  { assert (H0 : selectionWellFormed (initialSidebarState convs)).
    { split; simpl; [constructor | intros r Hr; inversion Hr]. }
    revert H0. generalize (initialSidebarState convs).
    induction actions as [|a actions IH]; intros st Hst; [done|].
    simpl. apply IH. destruct a as [term resp|i|i]; simpl.
    - by apply selectionWellFormed_type.
    - by apply selectionWellFormed_click.
    - by apply selectionWellFormed_remove. }
  destruct Hwf as [Hnd _]. split_and!; [done| |done].
  apply (NoDup_fmap_1 uci_user_id). by rewrite <- list_fmap_compose.
Qed.

(** The answer of a search is filtered against the selection of the
    render that started it.  When the user selected somebody while the
    query was in flight, the answer lists that user again, and a click on
    the entry selects them a second time. *)
Theorem late_answer_reselects selectedAtCall rows user st :
  user ∈ rows →
  u_id user ∉ u_id <$> selectedAtCall →
  user ∈ selectedUsers st →
  let st' := searchUsers_end selectedAtCall (ok rows) st in
  user ∈ searchResults st'
  ∧ selectedUsers (addUser user st') = selectedUsers st ++ [user]
  ∧ ¬ NoDup (u_id <$> selectedUsers (addUser user st')).
Proof.
  intros Hrow Hnew Hsel. simpl. split_and!.
  - apply list_elem_of_filter. split; [|done].
    intros (sel & Hin & Heq)%list.Exists_exists. apply Hnew.
    rewrite <- Heq. by apply list_elem_of_fmap_2.
  - done.
  - rewrite fmap_app. simpl. intros Hnd%list.NoDup_app.
    destruct Hnd as (_ & Hdisj & _).
    apply (Hdisj (u_id user)); [by apply list_elem_of_fmap_2 | by left].
Qed.

Lemma late_answer_reselects_witness :
  let st := addUser bob (initialSidebarState []) in
  let st' := searchUsers_end [] (ok [bob]) st in
  bob ∈ searchResults st'
  ∧ selectedUsers (addUser bob st') = selectedUsers st ++ [bob]
  ∧ ¬ NoDup (u_id <$> selectedUsers (addUser bob st')).
Proof.
  apply (late_answer_reselects [] [bob] bob
           (addUser bob (initialSidebarState []))).
  - by left.
  - simpl. intros H. inversion H.
  - simpl. by left.
Defined.

End Dialog.

(** ** Further properties of conversation creation *)

Section CreateConversationMore.

Variable instant : jsstring → Z.

Implicit Types (db : Database) (st : SidebarState).

(** The two checks before any request: with nobody selected, or with a
    group whose name is blank, nothing is sent, the tables and the route
    stay as they are and the dialog shows the matching message, whatever
    the platform would have answered. *)
Theorem createConversation_validation userId conversationId now rowids
  cErr ucErr st db :
  selectedUsers st = [] ∨ (isGroup st = true ∧ blank (groupName st)) →
  let out :=
    createConversation userId conversationId now rowids cErr ucErr st db in
  co_db out = db
  ∧ co_pushed out = None
  ∧ sb_error (co_state out)
    = (if decide (selectedUsers st = [])
       then js "Please select at least one user"
       else js "Please enter a group name")
  ∧ selectedUsers (co_state out) = selectedUsers st
  ∧ isLoading (co_state out) = isLoading st.
Proof.
  intros Hcase. unfold createConversation.
  destruct (selectedUsers st) as [|first rest] eqn:Hsel.
  - rewrite decide_True by done. simpl. by rewrite Hsel.
  - destruct Hcase as [?|[Hg Hb%truthy_trim]]; [done|].
    rewrite Hg, Hb. rewrite decide_False by done. simpl. by rewrite Hsel.
Qed.

Lemma createConversation_validation_witness :
  let out :=
    createConversation alice (js "c9") (js "t0") sampleRowids None None
      (initialSidebarState []) emptyDatabase in
  co_db out = emptyDatabase
  ∧ co_pushed out = None
  ∧ sb_error (co_state out)
    = (if decide (selectedUsers (initialSidebarState []) = [])
       then js "Please select at least one user"
       else js "Please enter a group name")
  ∧ selectedUsers (co_state out) = selectedUsers (initialSidebarState [])
  ∧ isLoading (co_state out) = isLoading (initialSidebarState []).
Proof.
  apply (createConversation_validation alice (js "c9") (js "t0")
           sampleRowids None None (initialSidebarState []) emptyDatabase).
  left. reflexivity.
Defined.

Lemma filter_ext_in {A} (P Q : A → Prop) `{∀ x, Decision (P x)}
  `{∀ x, Decision (Q x)} (l : list A) :
  (∀ x, x ∈ l → P x ↔ Q x) → filter P l = filter Q l.
Proof.
  induction l as [|x l IH]; intros Hext; [done|].
  rewrite !filter_cons.
  rewrite IH by (intros y Hy; apply Hext; by right).
  destruct (decide (P x)) as [HP|HP], (decide (Q x)) as [HQ|HQ]; try done.
  - exfalso. apply HQ, Hext; [by left | done].
  - exfalso. apply HP, Hext; [by left | done].
Qed.

(** The list a viewer is given depends on the tables only through the
    conversations the viewer is a member of and the messages. *)
Lemma conversationsQuery_same db db' viewer :
  messages_table db' = messages_table db →
  filter (isMember db' viewer) (conversations db')
  = filter (isMember db viewer) (conversations db) →
  conversationsQuery instant db' viewer = conversationsQuery instant db viewer.
Proof.
  intros Hm Hf. unfold conversationsQuery. rewrite Hf.
  apply list_fmap_ext. intros _ c _. unfold selectConversation.
  by rewrite Hm.
Qed.

Lemma isMember_app db db' viewer c extra :
  user_conversations db' = user_conversations db ++ extra →
  Forall (λ r, uc_conversation_id r ≠ c_id c ∨ uc_user_id r ≠ viewer)
    extra →
  isMember db' viewer c ↔ isMember db viewer c.
Proof.
  intros Huc Hextra. unfold isMember. rewrite Huc, Exists_app.
  split; [|by left]. intros [H|H]; [done|]. exfalso.
  apply list.Exists_exists in H as (r & Hr & Hc & Hu).
  rewrite list.Forall_forall in Hextra.
  destruct (Hextra r Hr); done.
Qed.

(** A conversation whose membership insert was rejected is left behind:
    the row stays in [conversations], no membership row exists for it, and
    nobody's list changes.  The dialog stays open with its selection and
    shows the failure; no route is pushed. *)
Theorem createConversation_orphan userId conversationId now rowids e st db
  first rest :
  selectedUsers st = first :: rest →
  isGroup st && negb (truthy (trim (groupName st))) = false →
  Forall (λ uc, uc_conversation_id uc ≠ conversationId)
    (user_conversations db) →
  let out :=
    createConversation userId conversationId now rowids None (Some e) st
      db in
  conversationId ∈ c_id <$> conversations (co_db out)
  ∧ user_conversations (co_db out) = user_conversations db
  ∧ (∀ viewer, conversationsQuery instant (co_db out) viewer
               = conversationsQuery instant db viewer)
  ∧ co_pushed out = None
  ∧ sb_error (co_state out) = js "Failed to create conversation"
  ∧ isLoading (co_state out) = false
  ∧ showNewChatModal (co_state out) = showNewChatModal st
  ∧ selectedUsers (co_state out) = selectedUsers st.
Proof.
  intros Hsel Hname Hfresh. unfold createConversation.
  rewrite Hsel, Hname. simpl. split_and!; try done.
  - rewrite fmap_app. apply elem_of_app. right. by left.
  - intros viewer. apply conversationsQuery_same; [done|]. simpl.
    rewrite list.filter_app. rewrite filter_cons_False, filter_nil.
    + rewrite app_nil_r. apply filter_ext_in. intros c _. reflexivity.
    + intros (uc & Huc & Hc & _)%list.Exists_exists.
      rewrite list.Forall_forall in Hfresh. by apply (Hfresh uc).
Qed.

(** The tables [createConversation] leaves: untouched, or with the
    conversation row, or with the conversation row and the membership
    rows. *)
Lemma createConversation_db_cases userId conversationId now rowids cErr ucErr
  st db :
  let out :=
    createConversation userId conversationId now rowids cErr ucErr st db in
  co_db out = db
  ∨ (∃ ci, ci_id ci = conversationId
           ∧ co_db out = insertConversation now ci db)
  ∨ (∃ ci, ci_id ci = conversationId
           ∧ co_db out
             = insertUserConversations now rowids
                 (userConversationsOf userId conversationId
                    (selectedUsers st))
                 (insertConversation now ci db)).
Proof.
  unfold createConversation.
  destruct (selectedUsers st) as [|first rest]; [by left|].
  destruct (isGroup st && negb (truthy (trim (groupName st)))); [by left|].
  destruct cErr; [by left|].
  destruct ucErr; right; [left|right];
    (eexists; split; [|simpl; reflexivity]; reflexivity).
Qed.

(** Creating a conversation changes nobody else's list, whatever the
    platform answers: a user who is neither the creator nor selected is
    given the same list before and after, the same conversations in the
    same order. *)
Theorem createConversation_outsider userId conversationId now rowids cErr
  ucErr st db viewer :
  Forall (λ uc, uc_conversation_id uc ≠ conversationId)
    (user_conversations db) →
  viewer ∉ userId :: (u_id <$> selectedUsers st) →
  let out :=
    createConversation userId conversationId now rowids cErr ucErr st db in
  conversationsQuery instant (co_db out) viewer
  = conversationsQuery instant db viewer.
Proof.
  intros Hfresh Hout out.
  assert (Hnew : ∀ ci, ci_id ci = conversationId →
            ¬ isMember db viewer (conversationRowOf now ci)).
  { intros ci Hci (uc & Huc & Hc & _)%list.Exists_exists.
    rewrite list.Forall_forall in Hfresh. apply (Hfresh uc Huc).
    by rewrite Hc. }
  destruct (createConversation_db_cases userId conversationId now rowids
              cErr ucErr st db) as [Hdb|[(ci & Hci & Hdb)|(ci & Hci & Hdb)]];
    fold out in Hdb; rewrite Hdb.
  - done.
  - apply conversationsQuery_same; [done|]. simpl.
    rewrite list.filter_app, filter_cons_False, filter_nil by by apply Hnew.
    rewrite app_nil_r. apply filter_ext_in. intros c _. reflexivity.
  - set (db1 := insertConversation now ci db).
    set (rows := userConversationsOf userId conversationId
                   (selectedUsers st)).
    set (added := addedUserConversations now rowids rows db1).
    assert (Hids : uc_user_id <$> added
                   = userId :: (u_id <$> selectedUsers st)).
    { unfold added, rows.
      rewrite (addedUserConversations_fmap _ uci_user_id) by done.
      unfold userConversationsOf. simpl. f_equal.
      by rewrite <- list_fmap_compose. }
    assert (Hextra : ∀ c, Forall (λ r, uc_conversation_id r ≠ c_id c
                                       ∨ uc_user_id r ≠ viewer) added).
    { intros c. apply list.Forall_forall. intros r Hr. right. intros Hv.
      apply Hout. rewrite <- Hids, <- Hv. by apply list_elem_of_fmap_2. }
    apply conversationsQuery_same; [done|]. simpl.
    rewrite list.filter_app, filter_cons_False, filter_nil.
    + rewrite app_nil_r. apply filter_ext_in. intros c _.
      by apply (isMember_app db _ viewer c added).
    + rewrite (isMember_app db _ viewer _ added) by done. by apply Hnew.
Qed.

(** The client does not look for an existing conversation: creating a
    direct conversation with the same user a second time stores a second
    conversation row of the same name, whatever the platform answers to
    the membership inserts. *)
Theorem createConversation_direct_twice userId c1 c2 now1 now2 rowids1
  rowids2 ucErr1 ucErr2 st1 st2 db u :
  selectedUsers st1 = [u] → isGroup st1 = false →
  selectedUsers st2 = [u] → isGroup st2 = false →
  let db1 :=
    co_db (createConversation userId c1 now1 rowids1 None ucErr1 st1 db) in
  let db2 :=
    co_db (createConversation userId c2 now2 rowids2 None ucErr2 st2 db1) in
  conversations db2
  = conversations db
      ++ [mkConversationRow c1 (displayName u) None false None None now1
            now1;
          mkConversationRow c2 (displayName u) None false None None now2
            now2].
Proof.
  intros Hs1 Hg1 Hs2 Hg2 db1 db2.
  assert (H1 : conversations db1
               = conversations db
                   ++ [mkConversationRow c1 (displayName u) None false None
                         None now1 now1]).
  { unfold db1, createConversation. rewrite Hs1, Hg1. simpl.
    by destruct ucErr1. }
  unfold db2, createConversation. rewrite Hs2, Hg2. simpl.
  destruct ucErr2; simpl; rewrite H1, <- app_assoc; reflexivity.
Qed.

(** Under the insert policy of [user_conversations] the dialog cannot
    create a conversation with members: as soon as a selected user is not
    the signed-in user, the membership rows are rejected as a whole.  No
    membership row is stored, no route is pushed, the dialog keeps its
    selection and shows the failure; the conversation row, when its
    identifier is new, stays behind. *)
Theorem createConversation_policy_rejects userId conversationId now rowids
  st db :
  Exists (λ u, u_id u ≠ userId) (selectedUsers st) →
  isGroup st && negb (truthy (trim (groupName st))) = false →
  let out :=
    createConversationOnSchema userId conversationId now rowids st db in
  user_conversations (co_db out) = user_conversations db
  ∧ co_pushed out = None
  ∧ sb_error (co_state out) = js "Failed to create conversation"
  ∧ selectedUsers (co_state out) = selectedUsers st
  ∧ (conversationId ∉ c_id <$> conversations db →
     c_id <$> conversations (co_db out)
     = (c_id <$> conversations db) ++ [conversationId]).
Proof.
  intros Hother Hname. unfold createConversationOnSchema.
  destruct (selectedUsers st) as [|first rest] eqn:Hsel;
    [by apply Exists_nil in Hother|].
  match goal with
  | |- context [membershipInsertAnswer ?a ?d ?r] =>
      assert (Hrej : is_Some (membershipInsertAnswer a d r))
  end.
  { unfold membershipInsertAnswer.
    destruct (decide _) as [(Hpolicy & _)|]; [|by eexists].
    exfalso. apply list.Exists_exists in Hother as (other & Hin & Hne).
    rewrite list.Forall_forall in Hpolicy. apply Hne.
    apply (Hpolicy (mkUserConversationInsert (u_id other) conversationId)).
    unfold userConversationsOf. right.
    by apply (list_elem_of_fmap_2
                (λ user, mkUserConversationInsert (u_id user)
                           conversationId)). }
  destruct Hrej as [e ->].
  unfold createConversation, conversationInsertAnswer. rewrite Hsel, Hname.
  simpl. destruct (decide (conversationId ∈ c_id <$> conversations db));
    simpl; rewrite ?Hsel; split_and!; try done.
  rewrite fmap_app. done.
Qed.

End CreateConversationMore.

Lemma createConversation_orphan_witness :
  let out :=
    createConversation alice (js "c9") (js "t0") sampleRowids None
      (Some (js "violates row-level security")) (directDialog bob)
      emptyDatabase in
  js "c9" ∈ c_id <$> conversations (co_db out)
  ∧ user_conversations (co_db out) = user_conversations emptyDatabase
  ∧ (∀ viewer,
       conversationsQuery (λ s, Z.of_nat (length s)) (co_db out) viewer
       = conversationsQuery (λ s, Z.of_nat (length s)) emptyDatabase viewer)
  ∧ co_pushed out = None
  ∧ sb_error (co_state out) = js "Failed to create conversation"
  ∧ isLoading (co_state out) = false
  ∧ showNewChatModal (co_state out) = showNewChatModal (directDialog bob)
  ∧ selectedUsers (co_state out) = selectedUsers (directDialog bob).
Proof.
  apply (createConversation_orphan (λ s, Z.of_nat (length s)) alice
           (js "c9") (js "t0") sampleRowids
           (js "violates row-level security") (directDialog bob)
           emptyDatabase bob []).
  - reflexivity.
  - reflexivity.
  - constructor.
Defined.

Lemma createConversation_outsider_witness :
  let out :=
    createConversation alice (js "c9") (js "t0") sampleRowids None
      (Some (js "42501")) (directDialog bob) threeUsers in
  conversationsQuery sampleInstant (co_db out) (js "eve")
  = conversationsQuery sampleInstant threeUsers (js "eve").
Proof.
  apply (createConversation_outsider sampleInstant alice (js "c9") (js "t0")
           sampleRowids None (Some (js "42501")) (directDialog bob)
           threeUsers (js "eve")).
  - constructor.
  - vm_compute. intros H. apply list_elem_of_In in H. simpl in H.
    destruct H as [H|[H|[]]]; discriminate H.
Defined.

Lemma createConversation_policy_rejects_witness :
  let out :=
    createConversationOnSchema alice (js "c9") (js "t0") sampleRowids
      (groupDialog bob) threeUsers in
  user_conversations (co_db out) = user_conversations threeUsers
  ∧ co_pushed out = None
  ∧ sb_error (co_state out) = js "Failed to create conversation"
  ∧ selectedUsers (co_state out) = selectedUsers (groupDialog bob)
  ∧ (js "c9" ∉ c_id <$> conversations threeUsers →
     c_id <$> conversations (co_db out)
     = (c_id <$> conversations threeUsers) ++ [js "c9"]).
Proof.
  apply (createConversation_policy_rejects alice (js "c9") (js "t0")
           sampleRowids (groupDialog bob) threeUsers).
  - left. vm_compute. discriminate.
  - reflexivity.
Defined.

(** ** The SQL functions *)

Section SqlFunctions.

Implicit Types (db : Database) (u c : jsstring).

Lemma sqlInsertConversation_Some row db db' :
  sqlInsertConversation row db = Some db' →
  db' = mkDatabase (profiles db) (conversations db ++ [row])
          (user_conversations db) (messages_table db)
  ∧ c_id row ∉ c_id <$> conversations db.
Proof.
  unfold sqlInsertConversation.
  destruct (decide (c_id row ∈ c_id <$> conversations db)); [done|].
  destruct (refersToProfile db (c_created_by row)); [|done].
  by intros [= <-].
Qed.

Lemma sqlAddMember_Some now rowids u c a db db' :
  sqlAddMember now rowids u c a db = Some db' →
  db' = mkDatabase (profiles db) (conversations db)
          (user_conversations db
             ++ [mkUserConversationRow
                   (rowids (length (user_conversations db))) u c a false
                   None now now])
          (messages_table db)
  ∧ u ∈ p_id <$> profiles db
  ∧ c ∈ c_id <$> conversations db
  ∧ (u, c) ∉ memberPair <$> user_conversations db.
Proof.
  unfold sqlAddMember, sqlInsertUserConversation. simpl.
  destruct (decide (_ ∈ uc_id <$> user_conversations db)); [done|].
  destruct (decide _) as [(Hu & Hc & Hp)|]; [|done].
  by intros [= <-].
Qed.

Lemma sqlAddMember_duplicate now rowids u c a db :
  (u, c) ∈ memberPair <$> user_conversations db →
  sqlAddMember now rowids u c a db = None.
Proof.
  intros Hin. unfold sqlAddMember, sqlInsertUserConversation. simpl.
  destruct (decide (_ ∈ uc_id <$> user_conversations db)); [done|].
  destruct (decide _) as [(Hu & Hc & Hp)|]; [|done].
  by destruct Hp.
Qed.

(** What the member loop adds when it runs through. *)
Lemma addGroupMembers_Some now rowids creator c members db db' :
  addGroupMembers now rowids creator c members db = Some db' →
  profiles db' = profiles db
  ∧ conversations db' = conversations db
  ∧ messages_table db' = messages_table db
  ∧ ∃ added,
      user_conversations db' = user_conversations db ++ added
      ∧ (λ r, (uc_user_id r, uc_is_admin r)) <$> added
        = (λ m, (m, false)) <$> filter (λ m, m ≠ creator) members
      ∧ Forall (λ r, uc_conversation_id r = c) added.
Proof.
  revert db. induction members as [|m members IH]; intros db; simpl.
  - intros [= <-]. split_and!; [done..|]. exists []. by rewrite app_nil_r.
  - destruct (decide (m ≠ creator)) as [Hne|Heq].
    + destruct (sqlAddMember now rowids m c false db) as [db1|] eqn:Hadd;
        [|done]. simpl.
      apply sqlAddMember_Some in Hadd as (-> & _). intros H.
      apply IH in H as (Hp & Hc & Hm & added & Huc & Hids & Hall).
      simpl in *. split_and!; [done..|].
      eexists (_ :: added). split_and!.
      * rewrite Huc, <- app_assoc. reflexivity.
      * rewrite filter_cons_True by done. rewrite !fmap_cons.
        f_equal. exact Hids.
      * by constructor.
    + intros H. apply IH in H as (Hp & Hc & Hm & added & Huc & Hids & Hall).
      split_and!; [done..|]. exists added. split_and!; [done| |done].
      rewrite filter_cons_False by done. done.
Qed.

(** [create_group_conversation], when it returns: the conversation is a
    group created by the creator; the creator has the first membership
    row, the only one with [is_admin]; each listed member other than the
    creator follows, in the order listed, without [is_admin]; a creator
    listed among the members is not added a second time. *)
Theorem create_group_conversation_memberships now rowids new_id creator
  name description members db db' cid :
  create_group_conversation now rowids new_id creator name description
    members db = Some (db', cid) →
  cid = new_id
  ∧ conversations db'
    = conversations db
        ++ [mkConversationRow new_id name description true None
              (Some creator) now now]
  ∧ (new_id ∉ c_id <$> conversations db)
  ∧ ∃ added,
      user_conversations db' = user_conversations db ++ added
      ∧ (λ r, (uc_user_id r, uc_is_admin r)) <$> added
        = (creator, true)
            :: ((λ m, (m, false)) <$> filter (λ m, m ≠ creator) members)
      ∧ Forall (λ r, uc_conversation_id r = new_id) added.
Proof.
  unfold create_group_conversation.
  destruct (sqlInsertConversation _ db) as [db1|] eqn:H1; [|done]. simpl.
  destruct (sqlAddMember now rowids creator new_id true db1) as [db2|]
    eqn:H2; [|done]. simpl.
  destruct (addGroupMembers now rowids creator new_id members db2)
    as [db3|] eqn:H3; [|done]. simpl.
  intros [= <- <-].
  apply sqlInsertConversation_Some in H1 as (-> & Hfresh).
  apply sqlAddMember_Some in H2 as (-> & _).
  apply addGroupMembers_Some in H3
    as (Hp & Hc & Hm & added & Huc & Hids & Hall).
  simpl in *. split_and!; [done..|].
  eexists (_ :: added). split_and!.
  - rewrite Huc, <- app_assoc. reflexivity.
  - rewrite fmap_cons. f_equal. exact Hids.
  - by constructor.
Qed.

Lemma create_group_conversation_memberships_witness :
  ∃ db',
    create_group_conversation (js "t0") sampleRowids (js "g1") alice
      (js "team") None [js "bob"; alice; js "eve"] threeUsers
    = Some (db', js "g1")
    ∧ (λ r, (uc_user_id r, uc_is_admin r)) <$> user_conversations db'
      = [(alice, true); (js "bob", false); (js "eve", false)].
Proof.
  destruct (create_group_conversation (js "t0") sampleRowids (js "g1") alice
              (js "team") None [js "bob"; alice; js "eve"] threeUsers)
    as [[db' cid]|] eqn:Hrun; [|by vm_compute in Hrun].
  pose proof (create_group_conversation_memberships _ _ _ _ _ _ _ _ _ _ Hrun)
    as (-> & _ & _ & added & Huc & Hids & _).
  exists db'. split; [done|].
  rewrite Huc. simpl. rewrite Hids. vm_compute. reflexivity.
Defined.

Lemma addGroupMembers_duplicate now rowids creator c m members db :
  m ≠ creator → m ∈ members →
  (m, c) ∈ memberPair <$> user_conversations db →
  addGroupMembers now rowids creator c members db = None.
Proof.
  intros Hne Hm. revert db. induction members as [|x members IH];
    intros db Hin; [inversion Hm|].
  simpl. apply elem_of_cons in Hm as [<-|Hm].
  - rewrite decide_True by done.
    by rewrite sqlAddMember_duplicate.
  - destruct (decide (x ≠ creator)); [|by apply IH].
    destruct (sqlAddMember now rowids x c false db) as [db1|] eqn:Hadd;
      [|done]. simpl.
    apply sqlAddMember_Some in Hadd as (-> & _). apply IH; [done|]. simpl.
    rewrite fmap_app. apply elem_of_app. by left.
Qed.

(** A member listed twice aborts [create_group_conversation]: the second
    insert violates the unique constraint, the function raises, and no
    conversation is created. *)
Theorem create_group_conversation_duplicate_member now rowids new_id
  creator name description l1 l2 m db :
  m ≠ creator → m ∈ l2 →
  create_group_conversation now rowids new_id creator name description
    (l1 ++ m :: l2) db = None.
Proof.
  intros Hne Hm. unfold create_group_conversation.
  destruct (sqlInsertConversation _ db) as [db1|]; [|done]. simpl.
  destruct (sqlAddMember now rowids creator new_id true db1) as [db2|];
    [|done]. simpl.
  assert (Hloop : addGroupMembers now rowids creator new_id (l1 ++ m :: l2)
                    db2 = None); [|by rewrite Hloop].
  clear -Hne Hm. revert db2. induction l1 as [|x l1 IH]; intros db; simpl.
  - rewrite decide_True by done.
    destruct (sqlAddMember now rowids m new_id false db) as [db1|] eqn:Hadd;
      [|done]. simpl.
    apply sqlAddMember_Some in Hadd as (-> & _).
    apply (addGroupMembers_duplicate _ _ _ _ m); [done..|]. simpl.
    rewrite fmap_app. apply elem_of_app. right. by left.
  - destruct (decide (x ≠ creator)); [|by apply IH].
    destruct (sqlAddMember now rowids x new_id false db) as [db1|]; [|done].
    simpl. apply IH.
Qed.

Lemma create_group_conversation_duplicate_member_witness :
  create_group_conversation (js "t0") sampleRowids (js "g1") alice
    (js "team") None ([js "eve"] ++ js "bob" :: [js "bob"]) threeUsers
  = None.
Proof.
  apply (create_group_conversation_duplicate_member (js "t0") sampleRowids
           (js "g1") alice (js "team") None [js "eve"] [js "bob"] (js "bob")
           threeUsers).
  - vm_compute. discriminate.
  - by left.
Defined.

Lemma directBetween_sym db u1 u2 (c : ConversationRow) :
  directBetween db u1 u2 c ↔ directBetween db u2 u1 c.
Proof. unfold directBetween. tauto. Qed.

Lemma directCandidates_sym db u1 u2 :
  directCandidates db u1 u2 = directCandidates db u2 u1.
Proof.
  unfold directCandidates. apply list_filter_iff. intros c.
  apply directBetween_sym.
Qed.

Lemma validPick_head : validPick head.
Proof. intros [|c l]; simpl; [done | by left]. Qed.

Lemma validPick_last : validPick list.last.
Proof.
  intros l. destruct (list.last l) as [c|] eqn:Hl.
  - by apply last_Some_elem_of.
  - by apply last_None.
Qed.

(** What a returning call leaves: the returned identifier is that of a
    direct conversation of the pair, the only one when the pair had at
    most one before. *)
Lemma create_direct_conversation_leaves pick now rowids g u1 u2 db db' cid :
  validPick pick →
  create_direct_conversation_with pick now rowids g u1 u2 db
  = Some (db', cid) →
  cid ∈ c_id <$> directCandidates db' u1 u2
  ∧ ((length (directCandidates db u1 u2) ≤ 1)%nat →
     ∃ row : ConversationRow,
       directCandidates db' u1 u2 = [row] ∧ c_id row = cid).
Proof.
  intros Hpick Hrun. unfold create_direct_conversation_with in Hrun.
  unfold findDirectWith in Hrun. pose proof (Hpick (directCandidates db u1 u2))
    as Hp.
  destruct (pick (directCandidates db u1 u2)) as [c|]; simpl in Hrun.
  { injection Hrun as <- <-. split; [by apply list_elem_of_fmap_2|].
    intros Hlen. exists c. split; [|done].
    destruct (directCandidates db u1 u2) as [|x [|y l]]; simpl in Hlen;
      [inversion Hp| |lia].
    by apply list_elem_of_singleton in Hp as ->. }
  destruct (directName _ _) as [name|]; [|done]. simpl in Hrun.
  destruct (sqlInsertConversation _ db) as [db1|] eqn:H1; [|done].
  simpl in Hrun.
  destruct (sqlAddMember now rowids u1 g false db1) as [db2|] eqn:H2;
    [|done]. simpl in Hrun.
  destruct (sqlAddMember now rowids u2 g false db2) as [db3|] eqn:H3;
    [|done]. simpl in Hrun. injection Hrun as <- <-.
  apply sqlInsertConversation_Some in H1 as (-> & Hfresh).
  apply sqlAddMember_Some in H2 as (-> & _).
  apply sqlAddMember_Some in H3 as (-> & _).
  simpl in *.
  match goal with
  | |- context [directCandidates ?d u1 u2] =>
      assert (Hnew : directCandidates d u1 u2
                     = [mkConversationRow g name None false None (Some u1)
                          now now])
  end.
  { unfold directCandidates in *. simpl. rewrite list.filter_app.
    match goal with
    | |- context [filter ?P (conversations db)] =>
        assert (Hold : filter P (conversations db) = [])
    end.
    { rewrite <- Hp. apply filter_ext_in. intros c Hc.
      assert (Hne : c_id c ≠ g).
      { intros Heq. apply Hfresh. rewrite <- Heq.
        by apply list_elem_of_fmap_2. }
      unfold directBetween, isMember. simpl.
      rewrite !Exists_app, !Exists_cons, !Exists_nil. simpl.
      split; [|tauto]. intros (Hg & Hm1 & Hm2). split_and!; [done| |].
      - destruct Hm1 as [[?|[[? _]|[]]]|[[? _]|[]]];
          [done|exfalso; by apply Hne..].
      - destruct Hm2 as [[?|[[? _]|[]]]|[[? _]|[]]];
          [done|exfalso; by apply Hne..]. }
    rewrite Hold. simpl. rewrite filter_cons_True; [done|].
    unfold directBetween, isMember. simpl.
    rewrite !Exists_app, !Exists_cons. simpl. split_and!; [done| |].
    - left. right. by left.
    - right. by left. }
  rewrite Hnew. split; [by left|]. intros _. by eexists.
Qed.

(** [create_direct_conversation] does not add to the conversations of a
    pair that has one: once a call has returned, every later call for the
    same two users, in either order and whichever matching row the
    database picks, changes nothing and returns a direct conversation of
    the pair; it returns the same identifier as the first call when the
    pair had at most one direct conversation before that call. *)
Theorem create_direct_conversation_idempotent pick now rowids g u1 u2 db db'
  cid :
  validPick pick →
  create_direct_conversation_with pick now rowids g u1 u2 db
  = Some (db', cid) →
  ∀ pick' now' rowids' g' a b,
    validPick pick' →
    (a = u1 ∧ b = u2) ∨ (a = u2 ∧ b = u1) →
    ∃ cid',
      create_direct_conversation_with pick' now' rowids' g' a b db'
      = Some (db', cid')
      ∧ cid' ∈ c_id <$> directCandidates db' u1 u2
      ∧ ((length (directCandidates db u1 u2) ≤ 1)%nat → cid' = cid).
Proof.
  intros Hpick Hrun pick' now' rowids' g' a b Hpick' Hab.
  destruct (create_direct_conversation_leaves _ _ _ _ _ _ _ _ _ Hpick Hrun)
    as (Hin & Honly).
  assert (Hcands : directCandidates db' a b = directCandidates db' u1 u2).
  { destruct Hab as [[-> ->]|[-> ->]]; [done | apply directCandidates_sym]. }
  unfold create_direct_conversation_with, findDirectWith. rewrite Hcands.
  pose proof (Hpick' (directCandidates db' u1 u2)) as Hp.
  destruct (pick' (directCandidates db' u1 u2)) as [c'|].
  - exists (c_id c'). simpl. split_and!; [done| by apply list_elem_of_fmap_2|].
    intros Hlen. destruct (Honly Hlen) as (c & Hc & <-).
    rewrite Hc in Hp. by apply list_elem_of_singleton in Hp as ->.
  - exfalso. rewrite Hp in Hin. inversion Hin.
Qed.

Lemma create_direct_conversation_idempotent_witness :
  ∃ db' cid',
    create_direct_conversation_with head (js "t0") sampleRowids (js "d1")
      alice (js "bob") threeUsers = Some (db', js "d1")
    ∧ create_direct_conversation_with list.last (js "t1") sampleRowids (js "d2")
        (js "bob") alice db' = Some (db', cid')
    ∧ cid' ∈ c_id <$> directCandidates db' alice (js "bob")
    ∧ ((length (directCandidates threeUsers alice (js "bob")) ≤ 1)%nat →
       cid' = js "d1").
Proof.
  destruct (create_direct_conversation_with head (js "t0") sampleRowids
              (js "d1") alice (js "bob") threeUsers)
    as [[db' cid]|] eqn:Hrun; [|by vm_compute in Hrun].
  assert (Hcid : cid = js "d1").
  { vm_compute in Hrun. injection Hrun as _ <-. reflexivity. }
  rewrite Hcid in *.
  destruct (create_direct_conversation_idempotent head _ _ _ _ _ _ _ _
              validPick_head Hrun list.last (js "t1") sampleRowids (js "d2")
              (js "bob") alice validPick_last)
    as (cid' & Hcall & Hin & Hsame); [by right|].
  exists db', cid'. done.
Defined.

(** When no direct conversation of the two users exists yet,
    [create_direct_conversation] aborts if one of them has no username
    (the concatenated name is null, which [NOT NULL] rejects) and if the
    two users are the same (the second membership row violates the unique
    constraint); nothing is created. *)
Theorem create_direct_conversation_aborts now rowids g u1 u2 db :
  findDirect db u1 u2 = None →
  usernameOf db u1 = None ∨ usernameOf db u2 = None ∨ u1 = u2 →
  create_direct_conversation now rowids g u1 u2 db = None.
Proof.
  intros Hfind Hcase.
  unfold create_direct_conversation, create_direct_conversation_with.
  unfold findDirect in Hfind. rewrite Hfind.
  destruct (usernameOf db u1) as [n1|] eqn:Hn1; [|done].
  destruct (usernameOf db u2) as [n2|] eqn:Hn2; [|done].
  destruct Hcase as [?|[?|<-]]; [done..|]. simpl.
  destruct (sqlInsertConversation _ db) as [db1|]; [|done]. simpl.
  destruct (sqlAddMember now rowids u1 g false db1) as [db2|] eqn:H2;
    [|done]. simpl.
  apply sqlAddMember_Some in H2 as (-> & _).
  rewrite sqlAddMember_duplicate; [done|]. simpl.
  rewrite fmap_app. apply elem_of_app. right. by left.
Qed.

Lemma create_direct_conversation_aborts_witness :
  create_direct_conversation (js "t0") sampleRowids (js "d1") alice alice
    threeUsers = None.
Proof.
  apply (create_direct_conversation_aborts (js "t0") sampleRowids (js "d1")
           alice alice threeUsers).
  - reflexivity.
  - right. right. reflexivity.
Defined.

End SqlFunctions.

(** ** Further properties of the conversation list and the pages *)

Lemma filter_nil_not_elem_of_helper {A} (P : A → Prop)
  `{∀ x, Decision (P x)} (l : list A) :
  (∀ x, x ∈ l → ¬ P x) → filter P l = [].
Proof.
  induction l as [|x l IH]; intros Hno; [done|].
  rewrite filter_cons_False by (apply Hno; by left).
  apply IH. intros y Hy. apply Hno. by right.
Qed.

Section ListAndPages.

Variable instant : jsstring → Z.

Implicit Types (db : Database) (st : SidebarState).

(** With the primary key of [conversations] in force, no conversation is
    listed twice, however many membership rows the user has for it. *)
Theorem conversationsQuery_NoDup db userId :
  NoDup (c_id <$> conversations db) →
  NoDup (conv_id <$> conversationsQuery instant db userId).
Proof.
  intros Hnd. rewrite conversationsQuery_ids.
  eapply sublist_NoDup; [exact Hnd|].
  apply fmap_sublist, sublist_filter.
Qed.

(** Each listed conversation carries at most one message as its preview,
    and that message is a row of this conversation. *)
Theorem conversationsQuery_last_message db userId (c : Conversation) :
  c ∈ conversationsQuery instant db userId →
  (length (conv_last_message c) ≤ 1)%nat
  ∧ ∀ lm, lm ∈ conv_last_message c →
      ∃ m, m ∈ messages_table db ∧ m_conversation_id m = conv_id c
           ∧ lm = lastMessageOf m.
Proof.
  intros (row & -> & _ & _)%elem_of_conversationsQuery. simpl. split.
  - rewrite length_take. lia.
  - intros lm Hlm. apply elem_of_sublist with (l2 := lastMessageOf <$>
      filter (λ m, m_conversation_id m = c_id row) (messages_table db))
      in Hlm; [|apply sublist_take].
    apply list_elem_of_fmap in Hlm as (m & -> & [Hc Hm]%list_elem_of_filter).
    by exists m.
Qed.

(** A refresh that gets no data keeps the list: a change notification
    whose refetch fails leaves the sidebar as it was. *)
Theorem onConversationChange_keeps_list_on_failure resp st :
  data resp = None → onConversationChange resp st = st.
Proof.
  intros Hd. unfold onConversationChange, fetchConversations.
  by rewrite Hd.
Qed.

(** The conversation page is rendered only for a member: a visitor with
    no session is sent to [/], a user without a membership row for the
    conversation to [/chat]; with the unique constraint in force a member
    is always rendered, with their own list of conversations. *)
Theorem chatConversationPage_access session db id :
  (session = None →
   chatConversationPage instant session db id = Redirect (js "/"))
  ∧ (∀ uid, session = Some uid →
       (uid, id) ∉ memberPair <$> user_conversations db →
       chatConversationPage instant session db id = Redirect (js "/chat"))
  ∧ (∀ uid l, chatConversationPage instant session db id = Render uid l →
       session = Some uid
       ∧ (uid, id) ∈ memberPair <$> user_conversations db
       ∧ l = conversationsQuery instant db uid)
  ∧ (∀ uid, session = Some uid → membershipsUnique db →
       (uid, id) ∈ memberPair <$> user_conversations db →
       chatConversationPage instant session db id
       = Render uid (conversationsQuery instant db uid)).
Proof.
  unfold chatConversationPage. split_and!.
  - by intros ->.
  - intros uid -> Hnot.
    destruct (filter _ (user_conversations db)) as [|r l] eqn:Hf; [done|].
    exfalso. apply Hnot.
    assert (Hr : r ∈ filter (λ uc, uc_user_id uc = uid
                                   ∧ uc_conversation_id uc = id)
                   (user_conversations db)) by (rewrite Hf; by left).
    apply list_elem_of_filter in Hr as [[<- <-] Hr].
    by apply (list_elem_of_fmap_2 memberPair).
  - intros uid l. destruct session as [u|]; [|done].
    destruct (filter _ (user_conversations db)) as [|r [|r' l']] eqn:Hf;
      simpl; try done.
    intros [= <- <-]. split_and!; [done| |done].
    assert (Hr : r ∈ filter (λ uc, uc_user_id uc = u
                                   ∧ uc_conversation_id uc = id)
                   (user_conversations db)) by (rewrite Hf; by left).
    apply list_elem_of_filter in Hr as [[<- <-] Hr].
    by apply (list_elem_of_fmap_2 memberPair).
  - intros uid -> Huniq Hin.
    apply list_elem_of_fmap in Hin as (r & Hpair & Hr).
    assert (Hone : filter (λ uc, uc_user_id uc = uid
                                 ∧ uc_conversation_id uc = id)
                     (user_conversations db) = [r]); [|by rewrite Hone].
    unfold membershipsUnique in Huniq. clear -Huniq Hpair Hr.
    induction (user_conversations db) as [|x l IH]; [inversion Hr|].
    simpl in Huniq. apply list.NoDup_cons in Huniq as [Hx Hl].
    injection Hpair as Hu Hc.
    apply elem_of_cons in Hr as [<-|Hr].
    + rewrite filter_cons_True by done. f_equal.
      apply filter_nil_not_elem_of_helper.
      intros y Hy [Hyu Hyc]. apply Hx.
      apply list_elem_of_fmap. exists y. split; [|done].
      unfold memberPair. congruence.
    + rewrite filter_cons_False; [by apply IH|].
      intros [Hxu Hxc]. apply Hx. apply list_elem_of_fmap. exists r.
      split; [|done]. unfold memberPair. congruence.
Qed.

End ListAndPages.

Lemma conversationsQuery_NoDup_witness :
  NoDup (conv_id <$> conversationsQuery sampleInstant sampleChat alice).
Proof.
  apply (conversationsQuery_NoDup sampleInstant sampleChat alice).
  vm_compute. repeat constructor; intros H; apply list_elem_of_In in H;
    simpl in H; intuition discriminate.
Defined.

Lemma conversationsQuery_last_message_witness :
  let c :=
    mkConversation (js "c1") (js "Bob") (js "t") false
      [mkLastMessage (js "hi") (js "t") alice] in
  (length (conv_last_message c) ≤ 1)%nat
  ∧ ∀ lm, lm ∈ conv_last_message c →
      ∃ m, m ∈ messages_table sampleChat ∧ m_conversation_id m = conv_id c
           ∧ lm = lastMessageOf m.
Proof.
  apply (conversationsQuery_last_message sampleInstant sampleChat alice
           (mkConversation (js "c1") (js "Bob") (js "t") false
              [mkLastMessage (js "hi") (js "t") alice])).
  vm_compute. right. left.
Defined.

(** ** History followed by live events *)




Lemma createConversation_direct_twice_witness :
  let db1 :=
    co_db (createConversation alice (js "c8") (js "t0") sampleRowids None
             (Some (js "42501")) (directDialog bob) threeUsers) in
  let db2 :=
    co_db (createConversation alice (js "c9") (js "t1") sampleRowids None
             (Some (js "42501")) (directDialog bob) db1) in
  conversations db2
  = conversations threeUsers
      ++ [mkConversationRow (js "c8") (displayName bob) None false None None
            (js "t0") (js "t0");
          mkConversationRow (js "c9") (displayName bob) None false None None
            (js "t1") (js "t1")].
Proof.
  apply (createConversation_direct_twice alice (js "c8") (js "c9") (js "t0")
           (js "t1") sampleRowids sampleRowids (Some (js "42501"))
           (Some (js "42501")) (directDialog bob) (directDialog bob)
           threeUsers bob); reflexivity.
Defined.
